(** * A shallow embedding of the TCP listener of [server.cpp]

    The development follows the source file by file:
    - [Inet]: the 16-bit byte-order conversions [htons]/[ntohs] and the
      [sockaddr_in] record the program fills in;
    - [Libc]: [atoi] and [std::to_string] on [int], used by [main];
    - [Proc]: the process state (console, system calls issued, the kernel's
      view of the listening socket, detached threads), the exception monad
      the functions of [server.cpp] run in, and the functions themselves:
      [thread_safe_print], [make_server_sockaddr], [get_port_number],
      [handle_connection], [run_server] and [main], read with handler
      threads that always start and that print in one step;
    - [Conc]: the same functions with the threads as they are: a thread
      may fail to start, a handler prints in two steps under the mutex,
      and handlers go on printing while [main] handles an exception.
      [Proc] is [Conc] under one particular scheduler.

    Everything the operating system decides (return values of the system
    calls, the ephemeral port, the contents of uninitialised stack memory,
    the thread schedule) is read from an oracle record [OS]; theorems
    quantify over all oracles. *)

From Stdlib Require Import ZArith List String Ascii Bool Lia.
From Stdlib Require Import DecimalString DecimalZ DecimalPos.
From stdpp Require Import base list.

Local Open Scope Z_scope.

(* ===================================================================== *)
(** ** <arpa/inet.h>, <netinet/in.h>                                      *)
(* ===================================================================== *)

Module Inet.

(** Conversion of an [int] to [uint16_t]: reduction modulo 2^16. *)
Definition uint16 (x : Z) : Z := x mod 65536.

(** Exchange of the two bytes of a 16-bit value. *)
Definition bswap_16 (x : Z) : Z :=
  Z.lor (Z.shiftl (Z.land x 255) 8) (Z.land (Z.shiftr x 8) 255).

Inductive byte_order := LittleEndian | BigEndian.

(** [htons(hostshort)]: the argument is converted to [uint16_t], then
    brought from host to network (big-endian) byte order. The result is
    the value of the 16-bit field as the host reads it. *)
Definition htons (bo : byte_order) (hostshort : Z) : Z :=
  match bo with
  | LittleEndian => bswap_16 (uint16 hostshort)
  | BigEndian => uint16 hostshort
  end.

Definition ntohs (bo : byte_order) (netshort : Z) : Z :=
  match bo with
  | LittleEndian => bswap_16 (uint16 netshort)
  | BigEndian => uint16 netshort
  end.

(** The two bytes of a 16-bit field as they lie in memory, lowest
    address first, on a host of the given byte order. *)
Definition host_bytes (bo : byte_order) (x : Z) : Z * Z :=
  match bo with
  | LittleEndian => (x mod 256, x / 256)
  | BigEndian => (x / 256, x mod 256)
  end.

(** The wire encoding of a port number: most significant byte first. *)
Definition net_bytes (port : Z) : Z * Z := (port / 256, port mod 256).

Definition AF_INET : Z := 2.
Definition SOCK_STREAM : Z := 1.
Definition SOL_SOCKET : Z := 1.
Definition SO_REUSEADDR : Z := 2.
Definition INADDR_ANY : Z := 0.

Record in_addr := { s_addr : Z }.

Record sockaddr_in := {
  sin_family : Z;
  sin_port : Z;              (* network byte order, as stored *)
  sin_addr : in_addr;
  sin_zero : list Byte.byte  (* padding, never touched by the program *)
}.

Definition sizeof_sockaddr_in : Z := 16.
Definition sizeof_int : Z := 4.

End Inet.

(* ===================================================================== *)
(** ** <stdlib.h>, <string>                                               *)
(* ===================================================================== *)

Module Libc.

Definition isspace (c : ascii) : bool :=
  let n := nat_of_ascii c in
  (Nat.eqb n 32 || (Nat.leb 9 n && Nat.leb n 13))%bool.

Definition isdigit (c : ascii) : bool :=
  let n := nat_of_ascii c in (Nat.leb 48 n && Nat.leb n 57)%bool.

Definition digit_value (c : ascii) : Z := Z.of_nat (nat_of_ascii c) - 48.

Fixpoint skip_space (s : string) : string :=
  match s with
  | String c rest => if isspace c then skip_space rest else s
  | EmptyString => s
  end.

(** The value of the longest prefix of decimal digits, accumulated left
    to right. *)
Fixpoint digits (acc : Z) (s : string) : Z :=
  match s with
  | String c rest => if isdigit c then digits (10 * acc + digit_value c) rest else acc
  | EmptyString => acc
  end.

Definition LONG_MAX : Z := 9223372036854775807.
Definition LONG_MIN : Z := -9223372036854775808.

(** [strtol(nptr, NULL, 10)]: white space, an optional sign, digits; the
    result is clamped to the range of [long]. *)
Definition strtol (nptr : string) : Z :=
  let v :=
    match skip_space nptr with
    | String c rest =>
        if (c =? "-")%char then - digits 0 rest
        else if (c =? "+")%char then digits 0 rest
        else digits 0 (String c rest)
    | EmptyString => 0
    end in
  Z.max LONG_MIN (Z.min LONG_MAX v).

(** Conversion to a 32-bit two's complement [int]. *)
Definition to_int (x : Z) : Z := (x + 2147483648) mod 4294967296 - 2147483648.

(** [atoi(nptr)] is [(int) strtol(nptr, NULL, 10)]. *)
Definition atoi (nptr : string) : Z := to_int (strtol nptr).

(** [std::to_string(int)]: decimal digits with a leading minus sign for
    negative values. *)
Definition to_string (n : Z) : string := NilZero.string_of_int (Z.to_int n).

End Libc.

(* ===================================================================== *)
(** ** The process: [utility.h] and [server.cpp]                          *)
(* ===================================================================== *)

Module Proc.
Import Inet Libc.
Local Open Scope string_scope.

(** *** File level constants *)

Definition USAGE_MESSAGE_c := "Usage: ./server {port number}".
Definition USER_SELECTED_FOLLOWING_PORT_c := "> User selected to run the server on port: ".
Definition USER_DID_NOT_SPECIFY_PORT_c := "> User did not specify a port, picking a port for the user".
Definition SERVER_LISTENING_ON_PORT_c := "> Server live and listening on port: ".
Definition HANDLING_NEW_CONNECTION_c := "> Handling new connection: ".

Definition ENCOUNTERED_AN_ERROR_OPENING_STREAM_SOCKET_c :=
  "> Encountered a fatal error while opening stream socket".
Definition ENCOUNTERED_ERROR_SETTING_SOCKET_OPTIONS_c :=
  "> Encountered a fatal error while setting socket options".
Definition ENCOUNTERED_ERROR_BINDING_STREAM_SOCKET_c :=
  "> Encountered a fatal error while binding stream socket".
Definition ENCOUNTERED_ERROR_FETCHING_SOCKET_PORT_c :=
  "> Encountered a fatal error while fetching socket port".
Definition ENCOUNTERED_ERROR_ACCEPTING_NEW_CONNECTION_c :=
  "> Encountered a fatal error while attempting to accept a new connection".

Definition SERVER_SOCKET_QUEUE_SIZE_c : Z := 30.
Definition MAX_MESSAGE_SIZE_IN_BYTES_c : nat := 4096.

(** [std::endl] *)
Definition endl : string := String "010"%char EmptyString.

(** *** [class Server_Error : public std::exception] *)

Inductive exn := Server_Error (msg : string).

Definition what (e : exn) : string :=
  match e with Server_Error msg => msg end.

(** *** The operating system *)

Inductive syscall :=
| Socket (domain type protocol : Z)
| Setsockopt (fd level optname optval optlen : Z)
| Bind (fd : Z) (addr : sockaddr_in) (len : Z)
| Getsockname (fd : Z)
| Listen (fd backlog : Z)
| Accept (fd : Z).

(** What the program cannot decide. A system call fails exactly when it
    returns -1; [accept_ret k] is the value of the k-th call of [accept]
    (from 0); [schedule t] lists, for the t-th scheduling point of the
    main thread, the positions in the list of detached threads of those
    that run there, in order. *)
Record OS := {
  host_order : byte_order;
  socket_ret : Z;
  setsockopt_ret : Z;
  bind_ret : Z;
  ephemeral_port : Z;
  getsockname_ret : Z;
  listen_ret : Z;
  accept_ret : nat -> Z;
  stack_addr : sockaddr_in;         (* an uninitialised [sockaddr_in] *)
  stack_byte : nat -> Byte.byte;    (* an uninitialised [char] array *)
  schedule : nat -> list nat
}.

(** *** The state of the process *)

Record world := {
  console : list string;           (* what each locked write put on std::cout, oldest first *)
  calls : list syscall;            (* system calls issued, oldest first *)
  sock_name : option sockaddr_in;  (* the local name of the listening socket *)
  accepts : nat;                   (* calls of [accept] so far *)
  detached : list Z;               (* detached threads that did not run yet: their [connection_fd] *)
  ticks : nat                      (* scheduling points passed *)
}.

Definition initial : world :=
  {| console := []; calls := []; sock_name := None; accepts := 0;
     detached := []; ticks := 0 |}.

Definition put (s : string) (w : world) : world :=
  {| console := console w ++ [s]; calls := calls w; sock_name := sock_name w;
     accepts := accepts w; detached := detached w; ticks := ticks w |}.

Definition log (c : syscall) (w : world) : world :=
  {| console := console w; calls := calls w ++ [c]; sock_name := sock_name w;
     accepts := accepts w; detached := detached w; ticks := ticks w |}.

Definition name_socket (a : sockaddr_in) (w : world) : world :=
  {| console := console w; calls := calls w; sock_name := Some a;
     accepts := accepts w; detached := detached w; ticks := ticks w |}.

Definition count_accept (w : world) : world :=
  {| console := console w; calls := calls w; sock_name := sock_name w;
     accepts := S (accepts w); detached := detached w; ticks := ticks w |}.

Definition set_detached (l : list Z) (w : world) : world :=
  {| console := console w; calls := calls w; sock_name := sock_name w;
     accepts := accepts w; detached := l; ticks := ticks w |}.

Definition tick (w : world) : world :=
  {| console := console w; calls := calls w; sock_name := sock_name w;
     accepts := accepts w; detached := detached w; ticks := S (ticks w) |}.

(** *** Computations: state, exceptions, and fuel for the endless loop *)

Inductive outcome (A : Type) :=
| Normal (a : A)      (* the function returned *)
| Thrown (e : exn)    (* an exception propagates *)
| Running.            (* still executing when the fuel ran out *)
Arguments Normal {A} a.
Arguments Thrown {A} e.
Arguments Running {A}.

Definition M (A : Type) : Type := world -> outcome A * world.

Definition ret {A} (a : A) : M A := fun w => (Normal a, w).

Definition bind {A B} (m : M A) (k : A -> M B) : M B :=
  fun w =>
    match m w with
    | (Normal a, w') => k a w'
    | (Thrown e, w') => (Thrown e, w')
    | (Running, w') => (Running, w')
    end.

Definition throw {A} (e : exn) : M A := fun w => (Thrown e, w).

Definition still_running {A} : M A := fun w => (Running, w).

Definition try_catch {A} (body : M A) (handler : exn -> M A) : M A :=
  fun w =>
    match body w with
    | (Thrown e, w') => handler e w'
    | r => r
    end.

Definition when (b : bool) (m : M unit) : M unit := if b then m else ret tt.

Declare Scope proc_scope.
Delimit Scope proc_scope with proc.
Notation "x <- m ;; k" := (bind m (fun x => k))
  (at level 100, m at next level, right associativity) : proc_scope.
Notation "m ;;; k" := (bind m (fun _ => k))
  (at level 100, right associativity) : proc_scope.
Local Open Scope proc_scope.

(** [do { body } while (cond);] with at most [fuel] iterations. *)
Fixpoint do_while (fuel : nat) (body : M unit) (cond : bool) : M unit :=
  match fuel with
  | O => still_running
  | S fuel' => body ;;; if cond then do_while fuel' body cond else ret tt
  end.

(** *** [utility.h]: [thread_safe_print] *)

(** With [cout_mutex] held nobody else writes: here the text and the
    line break go to the console as one write. That is all there is to
    see of a call by the main thread, which does not return before both
    are written; a handler thread between its two insertions is in
    [Conc]. *)
Definition thread_safe_print (to_print : string) (trailing_endline : bool) : M unit :=
  fun w => (Normal tt, put (to_print ++ (if trailing_endline then endl else "")) w).

(** *** System calls *)

Definition sys_socket (os : OS) (domain type protocol : Z) : M Z :=
  fun w => (Normal (socket_ret os), log (Socket domain type protocol) w).

Definition sys_setsockopt (os : OS) (fd level optname optval optlen : Z) : M Z :=
  fun w => (Normal (setsockopt_ret os), log (Setsockopt fd level optname optval optlen) w).

(** The name a successful [bind] gives the socket: the requested one,
    with the port chosen by the system when port 0 was requested. *)
Definition kernel_name (os : OS) (addr : sockaddr_in) : sockaddr_in :=
  if (ntohs (host_order os) (sin_port addr) =? 0)%Z
  then {| sin_family := sin_family addr;
          sin_port := htons (host_order os) (ephemeral_port os);
          sin_addr := sin_addr addr; sin_zero := sin_zero addr |}
  else addr.

Definition sys_bind (os : OS) (fd : Z) (addr : sockaddr_in) (len : Z) : M Z :=
  fun w =>
    let w1 := log (Bind fd addr len) w in
    if (bind_ret os =? -1)%Z then (Normal (bind_ret os), w1)
    else (Normal (bind_ret os), name_socket (kernel_name os addr) w1).

(** [getsockname] writes the socket's name through its pointer argument
    when it succeeds; the model returns the new contents next to the
    return value. *)
Definition sys_getsockname (os : OS) (fd : Z) (addr : sockaddr_in) : M (Z * sockaddr_in) :=
  fun w =>
    let w1 := log (Getsockname fd) w in
    if (getsockname_ret os =? -1)%Z then (Normal (getsockname_ret os, addr), w1)
    else
      match sock_name w with
      | Some a => (Normal (getsockname_ret os, a), w1)
      | None => (Normal (getsockname_ret os, addr), w1)
      end.

Definition sys_listen (os : OS) (fd backlog : Z) : M Z :=
  fun w => (Normal (listen_ret os), log (Listen fd backlog) w).

Definition sys_accept (os : OS) (fd : Z) : M Z :=
  fun w => (Normal (accept_ret os (accepts w)), count_accept (log (Accept fd) w)).

(** [memset(s, c, n)] on an array; only the array itself is written. *)
Definition memset (s : list Byte.byte) (c : Byte.byte) (n : nat) : list Byte.byte :=
  repeat c (Nat.min n (length s)) ++ drop n s.

(** An automatic [char] array of [n] elements before initialisation. *)
Definition stack_array (os : OS) (n : nat) : list Byte.byte :=
  map (stack_byte os) (seq 0 n).

(** *** [server.cpp] *)

Definition make_server_sockaddr (os : OS) (addr : sockaddr_in) (port : Z) : sockaddr_in :=
  let addr := {| sin_family := AF_INET; sin_port := sin_port addr;
                 sin_addr := sin_addr addr; sin_zero := sin_zero addr |} in
  let addr := {| sin_family := sin_family addr; sin_port := sin_port addr;
                 sin_addr := {| s_addr := INADDR_ANY |}; sin_zero := sin_zero addr |} in
  {| sin_family := sin_family addr; sin_port := htons (host_order os) port;
     sin_addr := sin_addr addr; sin_zero := sin_zero addr |}.

Definition get_port_number (os : OS) (sock_fd : Z) : M Z :=
  let addr := stack_addr os in
  r <- sys_getsockname os sock_fd addr ;;
  let '(rc, addr) := r in
  when (rc =? -1)%Z (throw (Server_Error ENCOUNTERED_ERROR_FETCHING_SOCKET_PORT_c)) ;;;
  ret (ntohs (host_order os) (sin_port addr)).

(** The function returns nothing; the model hands back the final
    contents of its local array [client_message]. *)
Definition handle_connection (os : OS) (connection_fd : Z) : M (list Byte.byte) :=
  thread_safe_print (HANDLING_NEW_CONNECTION_c ++ to_string connection_fd) true ;;;
  let client_message := stack_array os MAX_MESSAGE_SIZE_IN_BYTES_c in
  let client_message := memset client_message Byte.x00 MAX_MESSAGE_SIZE_IN_BYTES_c in
  ret client_message.

(** [thread t(handle_connection, connection_fd); t.detach();]: the
    thread exists from here on and runs whenever the scheduler picks it.
    Here the thread can always be started; the constructor that throws
    [std::system_error] is [Conc.spawn_detached]. *)
Definition spawn_detached (connection_fd : Z) : M unit :=
  fun w => (Normal tt, set_detached (detached w ++ [connection_fd]) w).

(** The detached thread at position [i], if there is one, runs
    [handle_connection] to its end; nobody observes how it ended. *)
Definition run_thread (os : OS) (i : nat) : M unit :=
  fun w =>
    match detached w !! i with
    | Some connection_fd =>
        let '(_, w') := handle_connection os connection_fd
                          (set_detached (delete i (detached w)) w) in
        (Normal tt, w')
    | None => (Normal tt, w)
    end.

Fixpoint run_threads (os : OS) (picks : list nat) : M unit :=
  match picks with
  | [] => ret tt
  | i :: picks' => run_thread os i ;;; run_threads os picks'
  end.

(** A scheduling point of the main thread, one per iteration of the
    loop: the handlers that the scheduler picks run to their end. What
    handlers do once the loop is left is in [Conc]. *)
Definition yield (os : OS) : M unit :=
  fun w => run_threads os (schedule os (ticks w)) (tick w).

Definition run_server (os : OS) (port_number socket_queue_size : Z) (fuel : nat) : M unit :=
  (* (1.0) Establish the initial socket *)
  socket_fd <- sys_socket os AF_INET SOCK_STREAM 0 ;;
  when (socket_fd =? -1)%Z
    (throw (Server_Error ENCOUNTERED_AN_ERROR_OPENING_STREAM_SOCKET_c)) ;;;
  (* (2.0) Allow the socket to reuse its port *)
  let yes_val := 1%Z in
  rc <- sys_setsockopt os socket_fd SOL_SOCKET SO_REUSEADDR yes_val sizeof_int ;;
  when (rc =? -1)%Z
    (throw (Server_Error ENCOUNTERED_ERROR_SETTING_SOCKET_OPTIONS_c)) ;;;
  (* (3.0) Create a sockaddr_in struct for the specified port *)
  let addr := make_server_sockaddr os (stack_addr os) port_number in
  (* (3.1) Bind the socket to the port *)
  rc <- sys_bind os socket_fd addr sizeof_sockaddr_in ;;
  when (rc =? -1)%Z
    (throw (Server_Error ENCOUNTERED_ERROR_BINDING_STREAM_SOCKET_c)) ;;;
  (* (3.2) Fetch the port number from the socket descriptor *)
  port_number <- get_port_number os socket_fd ;;
  thread_safe_print (SERVER_LISTENING_ON_PORT_c ++ to_string port_number) true ;;;
  (* (4) Begin listening for incoming connections; the result is dropped *)
  _ <- sys_listen os socket_fd socket_queue_size ;;
  (* (5) Serve incoming connections one by one indefinitely *)
  do_while fuel
    (connection_fd <- sys_accept os socket_fd ;;
     when (connection_fd =? -1)%Z
       (throw (Server_Error ENCOUNTERED_ERROR_ACCEPTING_NEW_CONNECTION_c)) ;;;
     spawn_detached connection_fd ;;;
     yield os)
    true.

(** [main] returns its exit code. Falling off the end of [main] after
    the [try] block returns 0. *)
Definition main (os : OS) (argc : Z) (argv : list string) (fuel : nat) : M Z :=
  if (argc >? 2)%Z then
    thread_safe_print USAGE_MESSAGE_c true ;;;
    ret (-1)%Z
  else
    port <- (if (argc =? 2)%Z then
               let port := atoi (nth 1 argv "") in
               thread_safe_print (USER_SELECTED_FOLLOWING_PORT_c ++ to_string port) true ;;;
               ret port
             else
               let port := 0%Z in
               thread_safe_print USER_DID_NOT_SPECIFY_PORT_c true ;;;
               ret port) ;;
    returned <- try_catch
                  (run_server os port SERVER_SOCKET_QUEUE_SIZE_c fuel ;;;
                   ret None)
                  (fun err =>
                     thread_safe_print (what err) true ;;;
                     ret (Some (-1)%Z)) ;;
    match returned with
    | Some code => ret code
    | None => ret 0%Z
    end.

End Proc.

(* ===================================================================== *)
(** ** Vocabulary of the specification                                    *)
(* ===================================================================== *)

Module Spec.
Import Inet Libc Proc.
Local Open Scope string_scope.

(** The fatal error kinds of the error taxonomy; [AcceptError k] is a
    failure of the call of [accept] that follows [k] successful ones. *)
Inductive failure :=
| SocketOpenError
| SocketConfigError
| BindError
| PortQueryError
| AcceptError (k : nat).

Definition message (f : failure) : string :=
  match f with
  | SocketOpenError => ENCOUNTERED_AN_ERROR_OPENING_STREAM_SOCKET_c
  | SocketConfigError => ENCOUNTERED_ERROR_SETTING_SOCKET_OPTIONS_c
  | BindError => ENCOUNTERED_ERROR_BINDING_STREAM_SOCKET_c
  | PortQueryError => ENCOUNTERED_ERROR_FETCHING_SOCKET_PORT_c
  | AcceptError _ => ENCOUNTERED_ERROR_ACCEPTING_NEW_CONNECTION_c
  end.

(** Among the calls of [accept] number [from], [from + 1], ...,
    [from + n - 1], the offset of the first that returns -1. *)
Fixpoint first_accept_failure (os : OS) (from n : nat) : option nat :=
  match n with
  | O => None
  | S n' =>
      if (accept_ret os from =? -1)%Z then Some O
      else option_map S (first_accept_failure os (S from) n')
  end.

(** The first operation, in program order, that fails within the first
    [fuel] iterations of the accept loop. *)
Definition first_failure (os : OS) (fuel : nat) : option failure :=
  if (socket_ret os =? -1)%Z then Some SocketOpenError
  else if (setsockopt_ret os =? -1)%Z then Some SocketConfigError
  else if (bind_ret os =? -1)%Z then Some BindError
  else if (getsockname_ret os =? -1)%Z then Some PortQueryError
  else option_map AcceptError (first_accept_failure os 0 fuel).

(** The same, said of the return values: the operation of kind [f]
    returns -1, *)
Definition failed (os : OS) (f : failure) : Prop :=
  match f with
  | SocketOpenError => socket_ret os = (-1)%Z
  | SocketConfigError => setsockopt_ret os = (-1)%Z
  | BindError => bind_ret os = (-1)%Z
  | PortQueryError => getsockname_ret os = (-1)%Z
  | AcceptError k => accept_ret os k = (-1)%Z
  end.

(** every operation before it in program order succeeds, *)
Definition succeeded_before (os : OS) (f : failure) : Prop :=
  match f with
  | SocketOpenError => True
  | SocketConfigError => socket_ret os <> (-1)%Z
  | BindError => socket_ret os <> (-1)%Z /\ setsockopt_ret os <> (-1)%Z
  | PortQueryError =>
      socket_ret os <> (-1)%Z /\ setsockopt_ret os <> (-1)%Z /\ bind_ret os <> (-1)%Z
  | AcceptError k =>
      socket_ret os <> (-1)%Z /\ setsockopt_ret os <> (-1)%Z /\
      bind_ret os <> (-1)%Z /\ getsockname_ret os <> (-1)%Z /\
      forall j, (j < k)%nat -> accept_ret os j <> (-1)%Z
  end.

(** and the run gets as far as that operation within [fuel] iterations
    of the loop. *)
Definition within (fuel : nat) (f : failure) : Prop :=
  match f with
  | AcceptError k => (k < fuel)%nat
  | _ => True
  end.

Definition first_failing (os : OS) (fuel : nat) (f : failure) : Prop :=
  failed os f /\ succeeded_before os f /\ within fuel f.

(** No operation ever fails. *)
Definition no_failure (os : OS) : Prop :=
  socket_ret os <> (-1)%Z /\ setsockopt_ret os <> (-1)%Z /\
  bind_ret os <> (-1)%Z /\ getsockname_ret os <> (-1)%Z /\
  forall k, accept_ret os k <> (-1)%Z.

(** The endpoint [run_server] binds for a requested port, the port
    number it carries on the wire, and the port the system reports
    after the bind. *)
Definition endpoint (os : OS) (port : Z) : sockaddr_in :=
  make_server_sockaddr os (stack_addr os) port.

Definition encoded_port (os : OS) (port : Z) : Z :=
  ntohs (host_order os) (sin_port (endpoint os port)).

Definition resolved_port (os : OS) (port : Z) : Z :=
  ntohs (host_order os) (sin_port (kernel_name os (endpoint os port))).

(** The lines of the console output contract. *)
Definition selected_line (port : Z) : string :=
  USER_SELECTED_FOLLOWING_PORT_c ++ to_string port ++ endl.
Definition unspecified_line : string := USER_DID_NOT_SPECIFY_PORT_c ++ endl.
Definition listening_line (port : Z) : string :=
  SERVER_LISTENING_ON_PORT_c ++ to_string port ++ endl.
Definition handling_line (fd : Z) : string :=
  HANDLING_NEW_CONNECTION_c ++ to_string fd ++ endl.
Definition error_line (f : failure) : string := message f ++ endl.
Definition usage_line : string := USAGE_MESSAGE_c ++ endl.

Definition is_error_line (s : string) : bool :=
  existsb (String.eqb s)
    (map error_line
       [SocketOpenError; SocketConfigError; BindError; PortQueryError; AcceptError 0]).

(** The connections accepted by the first [k] calls of [accept]. *)
Definition accepted (os : OS) (k : nat) : list Z := map (accept_ret os) (seq 0 k).

Local Close Scope string_scope.

(** The system calls of a start-up that succeeds, and those of a run
    that got as far as the operation of kind [f] and failed there. *)
Definition startup_calls (os : OS) (port : Z) : list syscall :=
  let fd := socket_ret os in
  [ Socket AF_INET SOCK_STREAM 0;
    Setsockopt fd SOL_SOCKET SO_REUSEADDR 1 sizeof_int;
    Bind fd (endpoint os port) sizeof_sockaddr_in;
    Getsockname fd;
    Listen fd SERVER_SOCKET_QUEUE_SIZE_c ].

Definition calls_until (os : OS) (port : Z) (f : failure) : list syscall :=
  match f with
  | SocketOpenError => take 1 (startup_calls os port)
  | SocketConfigError => take 2 (startup_calls os port)
  | BindError => take 3 (startup_calls os port)
  | PortQueryError => take 4 (startup_calls os port)
  | AcceptError k => startup_calls os port ++ repeat (Accept (socket_ret os)) (S k)
  end.

(** What the server part of a run has printed: nothing if the start-up
    failed, else the port line and the lines of the handlers [hs] that
    ran. *)
Definition served_lines (os : OS) (port : Z) (f : option failure) (hs : list Z)
    : list string :=
  match f with
  | Some (AcceptError _) | None =>
      listening_line (resolved_port os port) :: map handling_line hs
  | Some _ => []
  end.

(** The connections accepted in a run that ends with [f], or is still
    going on after [fuel] iterations. *)
Definition connections (os : OS) (fuel : nat) (f : option failure) : list Z :=
  match f with
  | Some (AcceptError k) => accepted os k
  | Some _ => []
  | None => accepted os fuel
  end.

(** What a batch of handler threads does to the process state: the
    threads [hs] printed their line, in this order, and are gone. *)
Record threads_ran (hs : list Z) (w w' : world) : Prop := {
  ran_console : console w' = console w ++ map handling_line hs;
  ran_detached : hs ++ detached w' ≡ₚ detached w;
  ran_calls : calls w' = calls w;
  ran_sock_name : sock_name w' = sock_name w;
  ran_accepts : accepts w' = accepts w
}.

(** What the accept loop does: [k] connections accepted by [c] calls of
    [accept], of which the handlers [hs] ran. *)
Record served (os : OS) (fd : Z) (k c : nat) (hs : list Z) (w w' : world) : Prop := {
  served_console : console w' = console w ++ map handling_line hs;
  served_detached :
    hs ++ detached w' ≡ₚ detached w ++ map (accept_ret os) (seq (accepts w) k);
  served_calls : calls w' = calls w ++ repeat (Accept fd) c;
  served_accepts : accepts w' = (accepts w + c)%nat;
  served_sock_name : sock_name w' = sock_name w
}.

(** The body of the loop of [run_server]. *)
Definition accept_body (os : OS) (socket_fd : Z) : M unit :=
  bind (sys_accept os socket_fd) (fun connection_fd =>
  bind (when (connection_fd =? -1)%Z
          (throw (Server_Error ENCOUNTERED_ERROR_ACCEPTING_NEW_CONNECTION_c))) (fun _ =>
  bind (spawn_detached connection_fd) (fun _ => yield os))).

Definition loop_outcome (os : OS) (fd : Z) (fuel : nat) (w : world)
    (r : outcome unit) (hs : list Z) (w' : world) : Prop :=
  match first_accept_failure os (accepts w) fuel with
  | Some k =>
      r = Thrown (Server_Error ENCOUNTERED_ERROR_ACCEPTING_NEW_CONNECTION_c) /\
      served os fd k (S k) hs w w'
  | None => r = Running /\ served os fd fuel fuel hs w w'
  end.

(** The system calls of a run. *)
Definition run_calls (os : OS) (port : Z) (fuel : nat) (f : option failure)
    : list syscall :=
  match f with
  | Some f => calls_until os port f
  | None => startup_calls os port ++ repeat (Accept (socket_ret os)) fuel
  end.

(** The outcome of [run_server] from a state in which no connection
    was accepted yet. *)
Definition server_outcome (os : OS) (port : Z) (fuel : nat) (w : world)
    (r : outcome unit) (hs : list Z) (w' : world) : Prop :=
  let f := first_failure os fuel in
  r = match f with
      | Some f => Thrown (Server_Error (message f))
      | None => Running
      end /\
  calls w' = calls w ++ run_calls os port fuel f /\
  console w' = console w ++ served_lines os port f hs /\
  hs ++ detached w' ≡ₚ detached w ++ connections os fuel f.

(** The port [main] requests for its arguments, and its first line. *)
Definition requested_port (argc : Z) (argv : list string) : Z :=
  if (argc =? 2)%Z then atoi (nth 1 argv EmptyString) else 0%Z.

Definition port_line (argc : Z) (argv : list string) : string :=
  if (argc =? 2)%Z then selected_line (atoi (nth 1 argv EmptyString))
  else unspecified_line.

(** The line that ends the output of a run. *)
Definition last_lines (f : option failure) : list string :=
  match f with
  | Some f => [error_line f]
  | None => []
  end.

(** The outcome of [main], called with at most one argument, when the
    handlers [hs] ran, in this order. *)
Definition main_outcome (os : OS) (argc : Z) (argv : list string) (fuel : nat)
    (w : world) (r : outcome Z) (hs : list Z) (w' : world) : Prop :=
  let f := first_failure os fuel in
  let port := requested_port argc argv in
  r = match f with
      | Some _ => Normal (-1)%Z
      | None => Running
      end /\
  calls w' = calls w ++ run_calls os port fuel f /\
  console w' =
    console w ++ port_line argc argv :: served_lines os port f hs ++ last_lines f /\
  hs ++ detached w' ≡ₚ detached w ++ connections os fuel f.

(** A port argument in the expected form is a non-empty string of
    decimal digits ([numeric]); everything else is malformed. *)
Fixpoint all_digits (s : string) : bool :=
  match s with
  | EmptyString => true
  | String c rest => (isdigit c && all_digits rest)%bool
  end.

Definition numeric (s : string) : bool :=
  match s with
  | EmptyString => false
  | _ => all_digits s
  end.

Definition starts_with_digit (s : string) : bool :=
  match s with
  | String c _ => isdigit c
  | EmptyString => false
  end.

(** After optional white space and an optional sign the argument does
    not go on with a decimal digit. *)
Definition no_leading_number (s : string) : bool :=
  match skip_space s with
  | String c rest =>
      if ((c =? "-") || (c =? "+"))%char then negb (starts_with_digit rest)
      else negb (isdigit c)
  | EmptyString => true
  end.

(** Every connection accepted so far has its line on the console. *)
Definition one_line_per_connection (os : OS) (w : world) : Prop :=
  forall k, (k < accepts w)%nat -> accept_ret os k <> (-1)%Z ->
            In (handling_line (accept_ret os k)) (console w).

(** The host [os] with another return value for [listen]. *)
Definition with_listen_ret (r : Z) (os : OS) : OS :=
  {| host_order := host_order os;
     socket_ret := socket_ret os; setsockopt_ret := setsockopt_ret os;
     bind_ret := bind_ret os; ephemeral_port := ephemeral_port os;
     getsockname_ret := getsockname_ret os; listen_ret := r;
     accept_ret := accept_ret os;
     stack_addr := stack_addr os; stack_byte := stack_byte os;
     schedule := schedule os |}.

(** Computations that append to the console but never read it: run
    with more lines on the console before them, they do the same and
    leave those lines in place. *)
Definition prepend (pre : list string) (w : world) : world :=
  {| console := pre ++ console w; calls := calls w; sock_name := sock_name w;
     accepts := accepts w; detached := detached w; ticks := ticks w |}.

Definition clear (w : world) : world :=
  {| console := []; calls := calls w; sock_name := sock_name w;
     accepts := accepts w; detached := detached w; ticks := ticks w |}.

Definition console_blind {A} (m : M A) : Prop :=
  forall pre w, m (prepend pre w) = (fst (m w), prepend pre (snd (m w))).

End Spec.

(* ===================================================================== *)
(** ** Concrete hosts                                                     *)
(* ===================================================================== *)

Module Hosts.
Import Inet Proc.

Definition zeroed : sockaddr_in :=
  {| sin_family := 0; sin_port := 0; sin_addr := {| s_addr := 0 |};
     sin_zero := repeat Byte.x00 8 |}.

(** A little-endian host on which every call succeeds: descriptor 3
    for the socket, descriptors 4, 5, ... for the connections, and
    every handler scheduled right after its connection is accepted. *)
Definition friendly : OS :=
  {| host_order := LittleEndian;
     socket_ret := 3; setsockopt_ret := 0; bind_ret := 0;
     ephemeral_port := 49152; getsockname_ret := 0; listen_ret := 0;
     accept_ret := fun k => 4 + Z.of_nat k;
     stack_addr := zeroed; stack_byte := fun _ => Byte.xff;
     schedule := fun _ => [0%nat] |}.

(** The same host, where [listen] fails. *)
Definition deaf : OS :=
  {| host_order := LittleEndian;
     socket_ret := 3; setsockopt_ret := 0; bind_ret := 0;
     ephemeral_port := 49152; getsockname_ret := 0; listen_ret := -1;
     accept_ret := fun k => 4 + Z.of_nat k;
     stack_addr := zeroed; stack_byte := fun _ => Byte.xff;
     schedule := fun _ => [0%nat] |}.

(** A host that accepts one connection, fails the next [accept], and
    does not schedule the handler thread before the process exits. *)
Definition hasty : OS :=
  {| host_order := LittleEndian;
     socket_ret := 3; setsockopt_ret := 0; bind_ret := 0;
     ephemeral_port := 49152; getsockname_ret := 0; listen_ret := 0;
     accept_ret := fun k => match k with O => 4 | _ => -1 end;
     stack_addr := zeroed; stack_byte := fun _ => Byte.xff;
     schedule := fun _ => [] |}.

(** A host on which the port is taken: [bind] fails. *)
Definition taken : OS :=
  {| host_order := BigEndian;
     socket_ret := 3; setsockopt_ret := 0; bind_ret := -1;
     ephemeral_port := 49152; getsockname_ret := 0; listen_ret := 0;
     accept_ret := fun k => 4 + Z.of_nat k;
     stack_addr := zeroed; stack_byte := fun _ => Byte.xff;
     schedule := fun _ => [0%nat] |}.

End Hosts.

(* ===================================================================== *)
(** ** Further vocabulary: runs, output and arguments                     *)
(* ===================================================================== *)

Module More.
Import Inet Libc Proc Spec.

(** The values of a 32-bit [int]. *)
Definition int_range (n : Z) : Prop := (-2147483648 <= n <= 2147483647)%Z.

(** The characters on [std::cout], in the order written. *)
Definition stream (w : world) : string :=
  fold_right String.append EmptyString (console w).

(** Two failures are failures of the same operation. *)
Definition same_kind (f g : failure) : bool :=
  match f, g with
  | SocketOpenError, SocketOpenError
  | SocketConfigError, SocketConfigError
  | BindError, BindError
  | PortQueryError, PortQueryError
  | AcceptError _, AcceptError _ => true
  | _, _ => false
  end.

(** The state in which [run_server] enters its loop after a start-up
    without failure. *)
Definition started (os : OS) (port socket_queue_size : Z) (w : world) : world :=
  let fd := socket_ret os in
  let w := log (Socket AF_INET SOCK_STREAM 0) w in
  let w := log (Setsockopt fd SOL_SOCKET SO_REUSEADDR 1 sizeof_int) w in
  let w := name_socket (kernel_name os (endpoint os port))
             (log (Bind fd (endpoint os port) sizeof_sockaddr_in) w) in
  let w := log (Getsockname fd) w in
  let w := put (listening_line (resolved_port os port)) w in
  log (Listen fd socket_queue_size) w.



(** A host on which the bound socket cannot be queried for its name. *)
Definition unnamed : OS :=
  {| host_order := LittleEndian;
     socket_ret := 3; setsockopt_ret := 0; bind_ret := 0;
     ephemeral_port := 49152; getsockname_ret := -1; listen_ret := 0;
     accept_ret := fun k => 4 + Z.of_nat k;
     stack_addr := Hosts.zeroed; stack_byte := fun _ => Byte.xff;
     schedule := fun _ => [0%nat] |}.

End More.

(* ===================================================================== *)
(** ** The process with its threads                                       *)
(* ===================================================================== *)

(** [Proc] reads the program with two simplifications: a handler thread
    runs from its first to its last statement when it is scheduled, and
    only while the main thread is in its loop; and [std::thread] can
    always start a thread. [Conc] is the program without them:

    - the constructor of [std::thread] (server.cpp, line 157) can throw
      [std::system_error]; it leaves [run_server] like a [Server_Error]
      and [main]'s [catch (exception&)] prints its text;
    - [thread_safe_print] (utility.h, lines 32-37) takes [cout_mutex],
      inserts the text, inserts the line break and releases the mutex: a
      handler thread can be between the two insertions for as long as the
      scheduler likes, and meanwhile holds the mutex, so that nobody else
      prints;
    - handler threads go on running while [main] is in its [catch]
      clause: they can print after the error message and before [main]
      returns (lines 105-106).

    What is written while the process exits, after [main] has returned,
    is not part of the model. The system calls, the state of the socket
    and the sequential statements are those of [Proc], lifted. *)

Module Conc.
Import Inet Libc Proc.
Local Open Scope string_scope.

(** *** Exceptions derived from [std::exception] *)

Inductive exception :=
| Server_Error (msg : string)     (* utility.h *)
| system_error (msg : string).    (* <system_error>, thrown by [std::thread] *)

Definition what (e : exception) : string :=
  match e with
  | Server_Error msg => msg
  | system_error msg => msg
  end.

(** *** The scheduler *)

(** One move of a handler thread: the thread at position [i] of the
    threads that have not printed yet takes [cout_mutex] and inserts its
    text ([Start i]), or the thread that holds the mutex inserts the line
    break, releases the mutex and runs to its end ([Finish]). *)
Inductive pick :=
| Start (i : nat)
| Finish.

(** [thread_error k] is [Some msg] when no thread can be started for the
    connection of the k-th call of [accept]: the constructor then throws
    [std::system_error] with text [msg]. [steps t] are the moves of the
    handler threads at the t-th scheduling point of the main thread in
    its loop, [late_steps] their moves after the [catch] clause of [main]
    has printed and before [main] returns. *)
Record scheduler := {
  thread_error : nat -> option string;
  steps : nat -> list pick;
  late_steps : list pick
}.

(** *** The state of the process *)

(** [base] is the state of [Proc]: its console holds the writes that are
    complete, its [detached] the connections of the threads that have not
    printed yet. [writer] is the connection of the handler thread that
    holds [cout_mutex], having inserted its text and not yet the line
    break. *)
Record world := {
  base : Proc.world;
  writer : option Z
}.

Definition initial : world := {| base := Proc.initial; writer := None |}.

Definition with_base (b : Proc.world) (w : world) : world :=
  {| base := b; writer := writer w |}.

(** *** Computations *)

Inductive outcome (A : Type) :=
| Normal (a : A)
| Thrown (e : exception)
| Running.
Arguments Normal {A} a.
Arguments Thrown {A} e.
Arguments Running {A}.

Definition M (A : Type) : Type := world -> outcome A * world.

Definition ret {A} (a : A) : M A := fun w => (Normal a, w).

Definition bind {A B} (m : M A) (k : A -> M B) : M B :=
  fun w =>
    match m w with
    | (Normal a, w') => k a w'
    | (Thrown e, w') => (Thrown e, w')
    | (Running, w') => (Running, w')
    end.

Definition throw {A} (e : exception) : M A := fun w => (Thrown e, w).

Definition still_running {A} : M A := fun w => (Running, w).

Definition try_catch {A} (body : M A) (handler : exception -> M A) : M A :=
  fun w =>
    match body w with
    | (Thrown e, w') => handler e w'
    | r => r
    end.

Definition when (b : bool) (m : M unit) : M unit := if b then m else ret tt.

Declare Scope conc_scope.
Delimit Scope conc_scope with conc.
Notation "x <- m ;; k" := (bind m (fun x => k))
  (at level 100, m at next level, right associativity) : conc_scope.
Notation "m ;;; k" := (bind m (fun _ => k))
  (at level 100, right associativity) : conc_scope.
Local Open Scope conc_scope.

Fixpoint do_while (fuel : nat) (body : M unit) (cond : bool) : M unit :=
  match fuel with
  | O => still_running
  | S fuel' => body ;;; if cond then do_while fuel' body cond else ret tt
  end.

(** A statement of the main thread that touches no thread: it runs on
    the state of [Proc]. *)
Definition lift {A} (m : Proc.M A) : M A :=
  fun w =>
    match m (base w) with
    | (Proc.Normal a, b) => (Normal a, with_base b w)
    | (Proc.Thrown e, b) => (Thrown (Server_Error (Proc.what e)), with_base b w)
    | (Proc.Running, b) => (Running, with_base b w)
    end.

(** *** The handler threads *)

(** What [handle_connection] passes to [thread_safe_print]. *)
Definition handler_text (connection_fd : Z) : string :=
  HANDLING_NEW_CONNECTION_c ++ to_string connection_fd.

(** A thread that wants [cout_mutex] while another holds it waits: its
    move does nothing. With the line break the write of the handler is
    complete; the rest of [handle_connection], the clearing of its own
    array, shows nowhere. *)
Definition step (p : pick) (w : world) : world :=
  match p with
  | Start i =>
      match writer w, detached (base w) !! i with
      | None, Some connection_fd =>
          {| base := set_detached (delete i (detached (base w))) (base w);
             writer := Some connection_fd |}
      | _, _ => w
      end
  | Finish =>
      match writer w with
      | Some connection_fd =>
          {| base := put (handler_text connection_fd ++ endl) (base w);
             writer := None |}
      | None => w
      end
  end.

Fixpoint run_steps (ps : list pick) (w : world) : world :=
  match ps with
  | [] => w
  | p :: ps' => run_steps ps' (step p w)
  end.

(** The scheduling point of the main thread in its loop, and the one in
    the [catch] clause of [main]. *)
Definition yield (sch : scheduler) : M unit :=
  fun w => (Normal tt, run_steps (steps sch (ticks (base w))) (with_base (tick (base w)) w)).

Definition late_yield (sch : scheduler) : M unit :=
  fun w => (Normal tt, run_steps (late_steps sch) w).

(** *** [utility.h]: [thread_safe_print], called by the main thread *)

(** The [lock_guard] waits until the handler that holds [cout_mutex] has
    inserted its line break and released it; then text and line break
    are inserted with the mutex held. *)
Definition thread_safe_print (to_print : string) (trailing_endline : bool) : M unit :=
  fun w => lift (Proc.thread_safe_print to_print trailing_endline) (step Finish w).

(** *** [server.cpp] *)

(** [thread service_connection(handle_connection, connection_fd);
    service_connection.detach();] for the connection that the last call
    of [accept] returned. *)
Definition spawn_detached (sch : scheduler) (connection_fd : Z) : M unit :=
  fun w =>
    match thread_error sch (Nat.pred (accepts (base w))) with
    | Some msg => (Thrown (system_error msg), w)
    | None => lift (Proc.spawn_detached connection_fd) w
    end.

Definition run_server (os : OS) (sch : scheduler)
    (port_number socket_queue_size : Z) (fuel : nat) : M unit :=
  (* (1.0) Establish the initial socket *)
  socket_fd <- lift (sys_socket os AF_INET SOCK_STREAM 0) ;;
  when (socket_fd =? -1)%Z
    (throw (Server_Error ENCOUNTERED_AN_ERROR_OPENING_STREAM_SOCKET_c)) ;;;
  (* (2.0) Allow the socket to reuse its port *)
  let yes_val := 1%Z in
  rc <- lift (sys_setsockopt os socket_fd SOL_SOCKET SO_REUSEADDR yes_val sizeof_int) ;;
  when (rc =? -1)%Z
    (throw (Server_Error ENCOUNTERED_ERROR_SETTING_SOCKET_OPTIONS_c)) ;;;
  (* (3.0) Create a sockaddr_in struct for the specified port *)
  let addr := make_server_sockaddr os (stack_addr os) port_number in
  (* (3.1) Bind the socket to the port *)
  rc <- lift (sys_bind os socket_fd addr sizeof_sockaddr_in) ;;
  when (rc =? -1)%Z
    (throw (Server_Error ENCOUNTERED_ERROR_BINDING_STREAM_SOCKET_c)) ;;;
  (* (3.2) Fetch the port number from the socket descriptor *)
  port_number <- lift (get_port_number os socket_fd) ;;
  thread_safe_print (SERVER_LISTENING_ON_PORT_c ++ to_string port_number) true ;;;
  (* (4) Begin listening for incoming connections; the result is dropped *)
  _ <- lift (sys_listen os socket_fd socket_queue_size) ;;
  (* (5) Serve incoming connections one by one indefinitely *)
  do_while fuel
    (connection_fd <- lift (sys_accept os socket_fd) ;;
     when (connection_fd =? -1)%Z
       (throw (Server_Error ENCOUNTERED_ERROR_ACCEPTING_NEW_CONNECTION_c)) ;;;
     spawn_detached sch connection_fd ;;;
     yield sch)
    true.

Definition main (os : OS) (sch : scheduler) (argc : Z) (argv : list string) (fuel : nat)
    : M Z :=
  if (argc >? 2)%Z then
    thread_safe_print USAGE_MESSAGE_c true ;;;
    ret (-1)%Z
  else
    port <- (if (argc =? 2)%Z then
               let port := atoi (nth 1 argv "") in
               thread_safe_print (USER_SELECTED_FOLLOWING_PORT_c ++ to_string port) true ;;;
               ret port
             else
               let port := 0%Z in
               thread_safe_print USER_DID_NOT_SPECIFY_PORT_c true ;;;
               ret port) ;;
    returned <- try_catch
                  (run_server os sch port SERVER_SOCKET_QUEUE_SIZE_c fuel ;;;
                   ret None)
                  (fun err =>
                     thread_safe_print (what err) true ;;;
                     late_yield sch ;;;
                     ret (Some (-1)%Z)) ;;
    match returned with
    | Some code => ret code
    | None => ret 0%Z
    end.

(** *** Vocabulary for runs with threads *)

Local Close Scope string_scope.

(** The connections whose handler thread exists and has not completed
    its write. *)
Definition alive (w : world) : list Z :=
  match writer w with
  | Some connection_fd => connection_fd :: detached (base w)
  | None => detached (base w)
  end.

(** The characters on [std::cout]: the complete writes, then the text
    of the handler that holds the mutex. *)
Definition stream (w : world) : string :=
  (fold_right String.append EmptyString (console (base w))
     ++ match writer w with
        | Some connection_fd => handler_text connection_fd
        | None => EmptyString
        end)%string.

(** The body of the loop of [run_server]. *)
Definition accept_body (os : OS) (sch : scheduler) (socket_fd : Z) : M unit :=
  bind (lift (sys_accept os socket_fd)) (fun connection_fd =>
  bind (when (connection_fd =? -1)%Z
          (throw (Server_Error ENCOUNTERED_ERROR_ACCEPTING_NEW_CONNECTION_c))) (fun _ =>
  bind (spawn_detached sch connection_fd) (fun _ => yield sch))).

(** How the loop ends within [n] iterations, the calls of [accept]
    being those from number [from] on: with [Some (k, e)] after [k]
    iterations that started a thread, by the exception [e] of the next
    one; with [None] not at all. *)
Fixpoint loop_end (os : OS) (sch : scheduler) (from n : nat) : option (nat * exception) :=
  match n with
  | O => None
  | S n' =>
      if (accept_ret os from =? -1)%Z
      then Some (O, Server_Error ENCOUNTERED_ERROR_ACCEPTING_NEW_CONNECTION_c)
      else match thread_error sch from with
           | Some msg => Some (O, system_error msg)
           | None =>
               match loop_end os sch (S from) n' with
               | Some (k, e) => Some (S k, e)
               | None => None
               end
           end
  end.

(** The first failure of the start-up, if there is one. *)
Definition startup_failure (os : OS) : option Spec.failure := Spec.first_failure os 0.

(** How a run ends within [fuel] iterations of the loop. *)
Definition run_end (os : OS) (sch : scheduler) (fuel : nat) : option (nat * exception) :=
  match startup_failure os with
  | Some f => Some (O, Server_Error (Spec.message f))
  | None => loop_end os sch 0 fuel
  end.

(** The connections for which a handler thread was started. *)
Definition started (os : OS) (sch : scheduler) (fuel : nat) : list Z :=
  Spec.accepted os
    match run_end os sch fuel with
    | Some (k, _) => k
    | None => fuel
    end.

(** The line with the resolved port, once the start-up is through. *)
Definition announced (os : OS) (port : Z) : list string :=
  match startup_failure os with
  | Some _ => []
  | None => [Spec.listening_line (Spec.resolved_port os port)]
  end.

(** The system calls of a run. *)
Definition run_calls (os : OS) (sch : scheduler) (port : Z) (fuel : nat) : list syscall :=
  match startup_failure os with
  | Some f => Spec.calls_until os port f
  | None =>
      Spec.startup_calls os port
        ++ repeat (Accept (socket_ret os))
             match loop_end os sch 0 fuel with
             | Some (k, _) => S k
             | None => fuel
             end
  end.

(** What the console holds after the port lines: the lines of the
    handlers [before]; and when the run has ended by an exception, its
    text and the lines of the handlers [after]. *)
Definition rest_of_console (e : option exception) (before after : list Z) : list string :=
  map Spec.handling_line before
    ++ match e with
       | Some e => (what e ++ endl)%string :: map Spec.handling_line after
       | None => []
       end.

(** What a run of handler moves does: the handlers [hs] completed their
    write, in this order. *)
Record ran (hs : list Z) (w w' : world) : Prop := {
  ran_console : console (base w') = console (base w) ++ map Spec.handling_line hs;
  ran_alive : hs ++ alive w' ≡ₚ alive w;
  ran_calls : calls (base w') = calls (base w);
  ran_sock_name : sock_name (base w') = sock_name (base w);
  ran_accepts : accepts (base w') = accepts (base w)
}.

(** What the loop does: [k] threads started, [c] calls of [accept],
    the handlers [hs] completed their write. *)
Record served (os : OS) (fd : Z) (k c : nat) (hs : list Z) (w w' : world) : Prop := {
  served_console : console (base w') = console (base w) ++ map Spec.handling_line hs;
  served_alive :
    hs ++ alive w' ≡ₚ alive w ++ map (accept_ret os) (seq (accepts (base w)) k);
  served_calls : calls (base w') = calls (base w) ++ repeat (Accept fd) c;
  served_accepts : accepts (base w') = (accepts (base w) + c)%nat;
  served_sock_name : sock_name (base w') = sock_name (base w)
}.

(** The outcome of the loop entered in state [w]. *)
Definition loop_outcome (os : OS) (sch : scheduler) (fd : Z) (fuel : nat) (w : world)
    (r : outcome unit) (hs : list Z) (w' : world) : Prop :=
  match loop_end os sch (accepts (base w)) fuel with
  | Some (k, e) => r = Thrown e /\ served os fd k (S k) hs w w'
  | None => r = Running /\ served os fd fuel fuel hs w w'
  end.

(** The outcome of [run_server], entered with no connection accepted
    yet, when the handlers [hs] completed their write. *)
Definition server_outcome (os : OS) (sch : scheduler) (port : Z) (fuel : nat) (w : world)
    (r : outcome unit) (hs : list Z) (w' : world) : Prop :=
  r = match run_end os sch fuel with
      | Some (_, e) => Thrown e
      | None => Running
      end /\
  calls (base w') = calls (base w) ++ run_calls os sch port fuel /\
  console (base w') = console (base w) ++ announced os port ++ map Spec.handling_line hs /\
  hs ++ alive w' ≡ₚ alive w ++ started os sch fuel.

(** The outcome of [main], called with at most one argument, when the
    handlers [before] completed their write before the error message and
    the handlers [after] between that message and the return of [main]. *)
Definition main_outcome (os : OS) (sch : scheduler) (argc : Z) (argv : list string)
    (fuel : nat) (w : world) (r : outcome Z) (before after : list Z) (w' : world) : Prop :=
  let e := option_map snd (run_end os sch fuel) in
  let port := Spec.requested_port argc argv in
  r = match e with
      | Some _ => Normal (-1)%Z
      | None => Running
      end /\
  calls (base w') = calls (base w) ++ run_calls os sch port fuel /\
  console (base w') =
    console (base w)
      ++ Spec.port_line argc argv :: announced os port ++ rest_of_console e before after /\
  (e = None -> after = []) /\
  before ++ after ++ alive w' ≡ₚ alive w ++ started os sch fuel.

(** The scheduler of [Proc] for a host: every thread can be started,
    a handler that is scheduled in the loop makes its two moves in one
    go, and none is scheduled after the [catch] clause has printed. *)
Definition atomic (os : OS) : scheduler :=
  {| thread_error := fun _ => None;
     steps := fun t => flat_map (fun i => [Start i; Finish]) (schedule os t);
     late_steps := [] |}.

(** The computation [mc] with threads does what [mp] does in [Proc],
    as long as no handler is between its two insertions. *)
Definition agrees {A} (mc : M A) (mp : Proc.M A) : Prop :=
  forall w, writer w = None -> mc w = lift mp w.

(** A scheduler that never fails to start a thread. *)
Definition threads_start (sch : scheduler) : Prop :=
  forall k, thread_error sch k = None.

(** Hosts: the threads cannot be started; no handler is ever scheduled;
    the only handler is scheduled after the error message; it is
    interrupted between its two insertions. *)
Definition crowded : scheduler :=
  {| thread_error := fun _ => Some "Resource temporarily unavailable"%string;
     steps := fun _ => []; late_steps := [] |}.

Definition idle : scheduler :=
  {| thread_error := fun _ => None; steps := fun _ => []; late_steps := [] |}.

Definition late : scheduler :=
  {| thread_error := fun _ => None; steps := fun _ => [];
     late_steps := [Start 0; Finish] |}.

Definition interrupted : scheduler :=
  {| thread_error := fun _ => None; steps := fun _ => [];
     late_steps := [Start 0] |}.

Definition prompt : scheduler :=
  {| thread_error := fun _ => None; steps := fun _ => [Start 0; Finish];
     late_steps := [] |}.

End Conc.

(* ===================================================================== *)
(** ** The model at work                                                  *)
(* ===================================================================== *)

Module Runs.
Import Inet Libc Proc Spec Hosts.

Example atoi_8080 : atoi "8080" = 8080.
Proof. reflexivity. Qed.

Example atoi_signed_prefix : atoi "  -17x" = -17.
Proof. reflexivity. Qed.

Example atoi_letters : atoi "abc" = 0.
Proof. reflexivity. Qed.

Example atoi_beyond_long : atoi "99999999999999999999999" = -1.
Proof. reflexivity. Qed.

Example to_string_8080 : to_string 8080 = "8080"%string.
Proof. reflexivity. Qed.

Example to_string_negative : to_string (-17) = "-17"%string.
Proof. reflexivity. Qed.

Example htons_8080_little_endian : htons LittleEndian 8080 = 36895.
Proof. reflexivity. Qed.

Example htons_8080_big_endian : htons BigEndian 8080 = 8080.
Proof. reflexivity. Qed.

(** Two connections served on the friendly host. *)
Example friendly_run :
  let '(r, w) := main friendly 2 ["./server"; "8080"]%string 2 initial in
  r = Running /\
  console w = [ selected_line 8080; listening_line 8080;
                handling_line 4; handling_line 5 ] /\
  calls w = startup_calls friendly 8080 ++ [Accept 3; Accept 3] /\
  detached w = [].
Proof. vm_compute. repeat split. Qed.

(** No argument: the system picks the port. *)
Example friendly_run_any_port :
  let '(r, w) := main friendly 1 ["./server"]%string 0 initial in
  r = Running /\
  console w = [ unspecified_line; listening_line 49152 ].
Proof. vm_compute. repeat split. Qed.

(** The port is taken. *)
Example taken_run :
  let '(r, w) := main taken 2 ["./server"; "80"]%string 7 initial in
  r = Normal (-1) /\
  console w = [ selected_line 80; error_line BindError ] /\
  calls w = calls_until taken 80 BindError.
Proof. vm_compute. repeat split. Qed.

(** With threads: the handler of the only connection prints after the
    error message. *)
Example late_run :
  let '(r, w) := Conc.main hasty Conc.late 2 ["./server"; "8080"]%string 2 Conc.initial in
  r = Conc.Normal (-1) /\
  console (Conc.base w) = [ selected_line 8080; listening_line 8080;
                            error_line (AcceptError 1); handling_line 4 ] /\
  Conc.alive w = [].
Proof. vm_compute. repeat split. Qed.

(** It has inserted its text and not yet the line break when [main]
    returns. *)
Example interrupted_run :
  let '(r, w) := Conc.main hasty Conc.interrupted 2 ["./server"; "8080"]%string 2
                   Conc.initial in
  r = Conc.Normal (-1) /\
  console (Conc.base w) = [ selected_line 8080; listening_line 8080;
                            error_line (AcceptError 1) ] /\
  Conc.alive w = [4] /\
  Conc.stream w = (selected_line 8080 ++ listening_line 8080
                     ++ error_line (AcceptError 1) ++ Conc.handler_text 4)%string.
Proof. vm_compute. repeat split. Qed.

(** No thread can be started. *)
Example crowded_run :
  let '(r, w) := Conc.main friendly Conc.crowded 1 ["./server"]%string 9 Conc.initial in
  r = Conc.Normal (-1) /\
  console (Conc.base w) = [ unspecified_line; listening_line 49152;
                            ("Resource temporarily unavailable" ++ endl)%string ] /\
  calls (Conc.base w) = startup_calls friendly 0 ++ [Accept 3].
Proof. vm_compute. repeat split. Qed.

End Runs.

(* ===================================================================== *)
(** ** Byte order                                                         *)
(* ===================================================================== *)

Module InetFacts.
Import Inet.

Lemma land_shiftl_8_small (a b : Z) : 0 <= b < 256 -> Z.land (Z.shiftl a 8) b = 0.
Proof.
  intros Hb. apply Z.bits_inj'; intros n Hn.
  rewrite Z.land_spec, Z.bits_0.
  destruct (Z.ltb_spec n 8) as [Hlt | Hge].
  - rewrite Z.shiftl_spec_low by lia. reflexivity.
  - destruct (Z.eq_dec b 0) as [-> | Hnz].
    + rewrite Z.bits_0. apply andb_false_r.
    + rewrite (Z.bits_above_log2 b n), andb_false_r; [reflexivity | lia |].
      apply Z.log2_lt_pow2; [lia |].
      apply Z.lt_le_trans with (2 ^ 8); [simpl; lia | apply Z.pow_le_mono_r; lia].
Qed.

Lemma lor_shiftl_8 (a b : Z) : 0 <= b < 256 -> Z.lor (Z.shiftl a 8) b = a * 256 + b.
Proof.
  intros Hb. pose proof (land_shiftl_8_small a b Hb) as Hd.
  rewrite <- Z.lxor_lor, <- Z.add_nocarry_lxor by exact Hd.
  rewrite Z.shiftl_mul_pow2 by lia. reflexivity.
Qed.

Lemma bswap_16_spec (x : Z) : 0 <= x < 65536 -> bswap_16 x = (x mod 256) * 256 + x / 256.
Proof.
  intros Hx. unfold bswap_16.
  change 255 with (Z.ones 8).
  rewrite !Z.land_ones, Z.shiftr_div_pow2 by lia.
  change (2 ^ 8) with 256.
  assert (0 <= x / 256 < 256) by (split; [apply Z.div_pos; lia | apply Z.div_lt_upper_bound; lia]).
  rewrite (Z.mod_small (x / 256)) by lia.
  apply lor_shiftl_8; lia.
Qed.

Lemma bswap_16_range (x : Z) : 0 <= x < 65536 -> 0 <= bswap_16 x < 65536.
Proof.
  intros Hx. rewrite bswap_16_spec by lia.
  pose proof (Z.mod_pos_bound x 256 ltac:(lia)).
  assert (0 <= x / 256 < 256) by (split; [apply Z.div_pos; lia | apply Z.div_lt_upper_bound; lia]).
  lia.
Qed.

Lemma bswap_16_involutive (x : Z) : 0 <= x < 65536 -> bswap_16 (bswap_16 x) = x.
Proof.
  intros Hx. pose proof (bswap_16_range x Hx) as Hr.
  rewrite (bswap_16_spec (bswap_16 x)) by lia.
  rewrite bswap_16_spec by lia.
  pose proof (Z.mod_pos_bound x 256 ltac:(lia)).
  assert (0 <= x / 256 < 256) by (split; [apply Z.div_pos; lia | apply Z.div_lt_upper_bound; lia]).
  replace ((x mod 256 * 256 + x / 256) mod 256) with (x / 256)
    by (rewrite Z.add_comm, Z.mod_add by lia; symmetry; apply Z.mod_small; lia).
  replace ((x mod 256 * 256 + x / 256) / 256) with (x mod 256)
    by (rewrite Z.add_comm, Z.div_add by lia; rewrite (Z.div_small (x / 256)) by lia; lia).
  pose proof (Z.div_mod x 256 ltac:(lia)). lia.
Qed.

Lemma uint16_range (x : Z) : 0 <= uint16 x < 65536.
Proof. unfold uint16. apply Z.mod_pos_bound. lia. Qed.

Lemma uint16_id (x : Z) : 0 <= x < 65536 -> uint16 x = x.
Proof. intros. unfold uint16. apply Z.mod_small. lia. Qed.

Lemma htons_range bo (x : Z) : 0 <= htons bo x < 65536.
Proof.
  destruct bo; simpl; [apply bswap_16_range |]; apply uint16_range.
Qed.

Lemma ntohs_htons bo (x : Z) : ntohs bo (htons bo x) = uint16 x.
Proof.
  pose proof (uint16_range x) as Hr.
  destruct bo; simpl.
  - rewrite (uint16_id (bswap_16 _)) by (apply bswap_16_range; lia).
    apply bswap_16_involutive; lia.
  - apply uint16_id, uint16_range.
Qed.

Lemma htons_on_the_wire bo (x : Z) : host_bytes bo (htons bo x) = net_bytes (uint16 x).
Proof.
  pose proof (uint16_range x) as Hr.
  destruct bo; simpl; [| reflexivity].
  rewrite bswap_16_spec by lia. unfold net_bytes.
  set (u := uint16 x) in *.
  pose proof (Z.mod_pos_bound u 256 ltac:(lia)).
  assert (0 <= u / 256 < 256) by (split; [apply Z.div_pos; lia | apply Z.div_lt_upper_bound; lia]).
  f_equal.
  - rewrite Z.add_comm, Z.mod_add by lia. apply Z.mod_small; lia.
  - rewrite Z.add_comm, Z.div_add by lia. rewrite (Z.div_small (u / 256)) by lia. lia.
Qed.

End InetFacts.

(* ===================================================================== *)
(** ** Threads, the accept loop, [run_server] and [main]                  *)
(* ===================================================================== *)

Module ProcFacts.
Import Inet Libc Proc Spec InetFacts.

Lemma memset_full (s : list Byte.byte) (c : Byte.byte) (n : nat) :
  length s = n -> memset s c n = repeat c n.
Proof.
  intros Hlen. unfold memset.
  rewrite Hlen, Nat.min_id, drop_ge by lia.
  apply app_nil_r.
Qed.

Lemma length_stack_array os n : length (stack_array os n) = n.
Proof. unfold stack_array. rewrite length_map. apply length_seq. Qed.

Lemma handle_connection_run os fd w :
  handle_connection os fd w =
  (Normal (repeat Byte.x00 MAX_MESSAGE_SIZE_IN_BYTES_c), put (handling_line fd) w).
Proof.
  unfold handle_connection, bind, thread_safe_print, ret.
  rewrite memset_full by apply length_stack_array.
  reflexivity.
Qed.

Lemma threads_ran_nil w w' :
  console w' = console w -> detached w' = detached w -> calls w' = calls w ->
  sock_name w' = sock_name w -> accepts w' = accepts w -> threads_ran [] w w'.
Proof.
  intros Hc Hd Hs Hn Ha. split; simpl; try assumption.
  - rewrite Hc. symmetry. apply app_nil_r.
  - rewrite Hd. reflexivity.
Qed.

Lemma threads_ran_trans hs1 hs2 w1 w2 w3 :
  threads_ran hs1 w1 w2 -> threads_ran hs2 w2 w3 -> threads_ran (hs1 ++ hs2) w1 w3.
Proof.
  intros [c1 d1 s1 n1 a1] [c2 d2 s2 n2 a2]. split.
  - rewrite c2, c1, map_app, app_assoc. reflexivity.
  - rewrite <- d1, <- d2, app_assoc. reflexivity.
  - congruence.
  - congruence.
  - congruence.
Qed.

Lemma run_thread_spec os i w :
  exists hs w', run_thread os i w = (Normal tt, w') /\ threads_ran hs w w'.
Proof.
  unfold run_thread.
  destruct (detached w !! i) as [fd |] eqn:Hi.
  - rewrite handle_connection_run.
    exists [fd], (put (handling_line fd) (set_detached (delete i (detached w)) w)).
    split; [reflexivity |].
    split; simpl; try reflexivity.
    symmetry. apply delete_Permutation. exact Hi.
  - exists [], w. split; [reflexivity |]. apply threads_ran_nil; reflexivity.
Qed.

Lemma run_threads_spec os picks : forall w,
  exists hs w', run_threads os picks w = (Normal tt, w') /\ threads_ran hs w w'.
Proof.
  induction picks as [| i picks IH]; intros w; simpl.
  - exists [], w. split; [reflexivity |]. apply threads_ran_nil; reflexivity.
  - unfold bind.
    destruct (run_thread_spec os i w) as (hs1 & w1 & -> & H1).
    destruct (IH w1) as (hs2 & w2 & -> & H2).
    exists (hs1 ++ hs2), w2. split; [reflexivity |].
    eapply threads_ran_trans; eassumption.
Qed.

Lemma yield_spec os w :
  exists hs w', yield os w = (Normal tt, w') /\ threads_ran hs w w'.
Proof.
  unfold yield.
  destruct (run_threads_spec os (schedule os (ticks w)) (tick w)) as (hs & w' & -> & [c d s n a]).
  exists hs, w'. split; [reflexivity |]. split; assumption.
Qed.

Lemma accept_loop_spec os fd fuel : forall w,
  exists r hs w',
    do_while fuel (accept_body os fd) true w = (r, w') /\ loop_outcome os fd fuel w r hs w'.
Proof.
  induction fuel as [| fuel IH]; intros w; unfold loop_outcome.
  - exists Running, [], w. split; [reflexivity |]. simpl. split; [reflexivity |].
    split; simpl; rewrite ?app_nil_r, ?Nat.add_0_r; reflexivity.
  - cbn [do_while first_accept_failure].
    unfold bind at 1. unfold accept_body at 1. unfold bind at 1, sys_accept at 1.
    set (w1 := count_accept (log (Accept fd) w)).
    destruct (Z.eqb_spec (accept_ret os (accepts w)) (-1)) as [Hfail | Hok].
    + exists (Thrown (Server_Error ENCOUNTERED_ERROR_ACCEPTING_NEW_CONNECTION_c)), [], w1.
      split; [reflexivity |]. split; [reflexivity |].
      split; simpl; rewrite ?app_nil_r, ?Nat.add_1_r; reflexivity.
    + unfold bind at 1, when, ret. unfold bind at 1, spawn_detached at 1.
      set (w2 := set_detached _ w1).
      destruct (yield_spec os w2) as (hs1 & w3 & -> & [c1 d1 s1 n1 a1]).
      destruct (IH w3) as (r & hs2 & w' & -> & Hloop). unfold loop_outcome in Hloop.
      assert (Ha3 : accepts w3 = S (accepts w)) by (rewrite a1; reflexivity).
      rewrite Ha3 in Hloop.
      exists r, (hs1 ++ hs2), w'. split; [reflexivity |].
      assert (Hserved : forall k c, served os fd k c hs2 w3 w' ->
                                    served os fd (S k) (S c) (hs1 ++ hs2) w w').
      { intros k c [c2 d2 s2 a2 n2]. split.
        - rewrite c2, c1, map_app, app_assoc. reflexivity.
        - rewrite <- app_assoc, d2, app_assoc, d1, Ha3. simpl.
          rewrite <- app_assoc. reflexivity.
        - rewrite s2, s1. simpl. rewrite <- app_assoc. reflexivity.
        - rewrite a2, Ha3. lia.
        - rewrite n2, n1. reflexivity. }
      destruct (first_accept_failure os (S (accepts w)) fuel) as [k |]; simpl;
        destruct Hloop as [-> Hs]; (split; [reflexivity | apply Hserved, Hs]).
Qed.

Lemma first_failure_accept os fuel :
  socket_ret os <> -1 -> setsockopt_ret os <> -1 -> bind_ret os <> -1 ->
  getsockname_ret os <> -1 ->
  first_failure os fuel = option_map AcceptError (first_accept_failure os 0 fuel).
Proof.
  intros H1 H2 H3 H4. unfold first_failure.
  destruct (Z.eqb_spec (socket_ret os) (-1)); [contradiction |].
  destruct (Z.eqb_spec (setsockopt_ret os) (-1)); [contradiction |].
  destruct (Z.eqb_spec (bind_ret os) (-1)); [contradiction |].
  destruct (Z.eqb_spec (getsockname_ret os) (-1)); [contradiction |].
  reflexivity.
Qed.

Lemma get_port_number_bound os fd a w :
  sock_name w = Some a -> getsockname_ret os <> -1 ->
  get_port_number os fd w = (Normal (ntohs (host_order os) (sin_port a)), log (Getsockname fd) w).
Proof.
  intros Hname Hok. unfold get_port_number, bind, sys_getsockname.
  destruct (Z.eqb_spec (getsockname_ret os) (-1)) as [? | _]; [contradiction |].
  rewrite Hname. simpl.
  destruct (Z.eqb_spec (getsockname_ret os) (-1)) as [? | _]; [contradiction |].
  reflexivity.
Qed.

Lemma get_port_number_fails os fd w :
  getsockname_ret os = -1 ->
  get_port_number os fd w =
  (Thrown (Server_Error ENCOUNTERED_ERROR_FETCHING_SOCKET_PORT_c), log (Getsockname fd) w).
Proof.
  intros Hfail. unfold get_port_number, bind, sys_getsockname.
  rewrite Hfail. reflexivity.
Qed.

Lemma run_server_spec os port fuel w :
  accepts w = 0%nat ->
  exists r hs w',
    run_server os port SERVER_SOCKET_QUEUE_SIZE_c fuel w = (r, w') /\
    server_outcome os port fuel w r hs w'.
Proof.
  intros Hacc. unfold run_server, server_outcome, first_failure.
  unfold bind at 1, sys_socket at 1.
  destruct (Z.eqb_spec (socket_ret os) (-1)) as [H1 | H1].
  { eexists _, [], _. split; [reflexivity |]. simpl.
    rewrite !app_nil_r. repeat split; reflexivity. }
  unfold bind at 1, when at 1, ret at 1.
  unfold bind at 1, sys_setsockopt at 1.
  destruct (Z.eqb_spec (setsockopt_ret os) (-1)) as [H2 | H2].
  { eexists _, [], _. split; [reflexivity |]. simpl.
    rewrite !app_nil_r, <- app_assoc. repeat split; reflexivity. }
  unfold bind at 1, when at 1, ret at 1.
  unfold bind at 1, sys_bind at 1.
  destruct (Z.eqb_spec (bind_ret os) (-1)) as [H3 | H3].
  { destruct (Z.eqb_spec (bind_ret os) (-1)) as [_ | ?]; [| contradiction].
    eexists _, [], _. split; [reflexivity |]. simpl.
    rewrite !app_nil_r, <- !app_assoc. repeat split; reflexivity. }
  destruct (Z.eqb_spec (bind_ret os) (-1)) as [? | _]; [contradiction |].
  unfold bind at 1, when at 1, ret at 1.
  unfold bind at 1.
  destruct (Z.eqb_spec (getsockname_ret os) (-1)) as [H4 | H4].
  { rewrite get_port_number_fails by assumption.
    eexists _, [], _. split; [reflexivity |]. simpl.
    rewrite !app_nil_r, <- !app_assoc. repeat split; reflexivity. }
  erewrite get_port_number_bound by (try reflexivity; assumption).
  unfold bind at 1, thread_safe_print at 1.
  unfold bind at 1, sys_listen at 1.
  match goal with |- context [do_while fuel ?b true ?w0] =>
    change b with (accept_body os (socket_ret os));
    destruct (accept_loop_spec os (socket_ret os) fuel w0) as (r & hs & w' & -> & Hloop)
  end.
  unfold loop_outcome in Hloop. simpl accepts in Hloop. rewrite Hacc in Hloop.
  exists r, hs, w'. split; [reflexivity |].
  destruct (first_accept_failure os 0 fuel) as [k |]; simpl;
    destruct Hloop as [-> [c d s a n]]; simpl in c, d, s; rewrite Hacc in d;
    (repeat split;
     [ rewrite s, <- !app_assoc; reflexivity
     | rewrite c, <- !app_assoc; reflexivity
     | exact d ]).
Qed.

Lemma main_usage os argc argv fuel w :
  argc > 2 -> main os argc argv fuel w = (Normal (-1), put usage_line w).
Proof.
  intros Hargc. unfold main.
  destruct (Z.gtb_spec argc 2) as [_ | ?]; [| lia].
  reflexivity.
Qed.

Lemma try_run (m : M unit) (w : world) :
  bind (try_catch (bind m (fun _ => ret None))
          (fun err => bind (thread_safe_print (what err) true)
                        (fun _ => ret (Some (-1)))))
       (fun returned => match returned with
                        | Some code => ret code
                        | None => ret 0
                        end) w =
  match m w with
  | (Normal _, w') => (Normal 0, w')
  | (Thrown err, w') => (Normal (-1), put (what err ++ endl) w')
  | (Running, w') => (Running, w')
  end.
Proof.
  unfold bind, try_catch.
  destruct (m w) as [[[] | err |] w']; reflexivity.
Qed.

Lemma main_serves os argc argv fuel w :
  argc <= 2 ->
  main os argc argv fuel w =
  match run_server os (requested_port argc argv) SERVER_SOCKET_QUEUE_SIZE_c fuel
          (put (port_line argc argv) w) with
  | (Normal _, w') => (Normal 0, w')
  | (Thrown err, w') => (Normal (-1), put (what err ++ endl) w')
  | (Running, w') => (Running, w')
  end.
Proof.
  intros Hargc. unfold main, requested_port, port_line.
  destruct (Z.gtb_spec argc 2) as [? | _]; [lia |].
  unfold bind at 1.
  destruct (argc =? 2);
    unfold bind at 1, thread_safe_print at 1, ret at 1;
    exact (try_run _ _).
Qed.

Lemma main_spec os argc argv fuel w :
  argc <= 2 -> accepts w = 0%nat ->
  exists r hs w',
    main os argc argv fuel w = (r, w') /\ main_outcome os argc argv fuel w r hs w'.
Proof.
  intros Hargc Hacc. rewrite main_serves by assumption.
  destruct (run_server_spec os (requested_port argc argv) fuel
              (put (port_line argc argv) w) Hacc)
    as (r & hs & w' & -> & Hr & Hcalls & Hcons & Hdet).
  unfold main_outcome. simpl in Hcalls, Hcons, Hdet.
  destruct (first_failure os fuel) as [f |]; subst r.
  - exists (Normal (-1)), hs, (put (what (Server_Error (message f)) ++ endl) w').
    split; [reflexivity |]. simpl.
    repeat split; try assumption.
    rewrite Hcons, <- !app_assoc. reflexivity.
  - exists Running, hs, w'. split; [reflexivity |]. simpl.
    repeat split; try assumption.
    rewrite Hcons, <- !app_assoc, app_nil_r. reflexivity.
Qed.

Lemma first_accept_failure_found os n : forall from j,
  (j < n)%nat -> accept_ret os (from + j) = -1 ->
  (forall i, (i < j)%nat -> accept_ret os (from + i) <> -1) ->
  first_accept_failure os from n = Some j.
Proof.
  induction n as [| n IH]; intros from j Hlt Hfail Hbefore; [lia |].
  simpl. destruct (Z.eqb_spec (accept_ret os from) (-1)) as [H0 | H0].
  - destruct j as [| j]; [reflexivity |].
    exfalso. apply (Hbefore 0%nat); [lia |]. rewrite Nat.add_0_r. exact H0.
  - destruct j as [| j].
    + exfalso. rewrite Nat.add_0_r in Hfail. contradiction.
    + rewrite (IH (S from) j); [reflexivity | lia | |].
      * rewrite <- Hfail. f_equal. lia.
      * intros i Hi. replace (S from + i)%nat with (from + S i)%nat by lia.
        apply Hbefore. lia.
Qed.

Lemma first_failing_first_failure os fuel f :
  first_failing os fuel f -> first_failure os fuel = Some f.
Proof.
  unfold first_failing, first_failure.
  destruct f as [| | | | k]; simpl; intros (Hfail & Hbefore & Hin).
  - rewrite Hfail. reflexivity.
  - destruct (Z.eqb_spec (socket_ret os) (-1)); [contradiction |].
    rewrite Hfail. reflexivity.
  - destruct Hbefore as (H1 & H2).
    destruct (Z.eqb_spec (socket_ret os) (-1)); [contradiction |].
    destruct (Z.eqb_spec (setsockopt_ret os) (-1)); [contradiction |].
    rewrite Hfail. reflexivity.
  - destruct Hbefore as (H1 & H2 & H3).
    destruct (Z.eqb_spec (socket_ret os) (-1)); [contradiction |].
    destruct (Z.eqb_spec (setsockopt_ret os) (-1)); [contradiction |].
    destruct (Z.eqb_spec (bind_ret os) (-1)); [contradiction |].
    rewrite Hfail. reflexivity.
  - destruct Hbefore as (H1 & H2 & H3 & H4 & Hacc).
    destruct (Z.eqb_spec (socket_ret os) (-1)); [contradiction |].
    destruct (Z.eqb_spec (setsockopt_ret os) (-1)); [contradiction |].
    destruct (Z.eqb_spec (bind_ret os) (-1)); [contradiction |].
    destruct (Z.eqb_spec (getsockname_ret os) (-1)); [contradiction |].
    rewrite (first_accept_failure_found os fuel 0 k); [reflexivity | exact Hin | exact Hfail |].
    intros i Hi. apply Hacc. exact Hi.
Qed.

Lemma encoded_port_mod os p : encoded_port os p = p mod 65536.
Proof. unfold encoded_port, endpoint, make_server_sockaddr. simpl. apply ntohs_htons. Qed.

Lemma kernel_name_keeps os p :
  p mod 65536 <> 0 -> kernel_name os (endpoint os p) = endpoint os p.
Proof.
  intros Hnz. unfold kernel_name.
  change (ntohs (host_order os) (sin_port (endpoint os p))) with (encoded_port os p).
  rewrite encoded_port_mod.
  destruct (Z.eqb_spec (p mod 65536) 0); [contradiction | reflexivity].
Qed.

Lemma resolved_port_explicit os p :
  p mod 65536 <> 0 -> resolved_port os p = p mod 65536.
Proof.
  intros Hnz. unfold resolved_port. rewrite kernel_name_keeps by assumption.
  apply encoded_port_mod.
Qed.

Lemma run_server_same_endpoint os p p' q fuel :
  endpoint os p = endpoint os p' -> run_server os p q fuel = run_server os p' q fuel.
Proof.
  unfold endpoint, run_server. intros Heq. rewrite Heq. reflexivity.
Qed.

Lemma endpoint_mod os p : endpoint os (p mod 65536) = endpoint os p.
Proof.
  unfold endpoint, make_server_sockaddr. simpl. f_equal.
  unfold htons, uint16. rewrite Z.mod_mod by lia. reflexivity.
Qed.

Lemma digits_no_digit acc s : starts_with_digit s = false -> digits acc s = acc.
Proof.
  destruct s as [| c rest]; simpl; [reflexivity |].
  intros ->. reflexivity.
Qed.

Lemma atoi_no_leading_number arg : no_leading_number arg = true -> atoi arg = 0.
Proof.
  unfold atoi, strtol, no_leading_number.
  destruct (skip_space arg) as [| c rest]; [reflexivity |].
  destruct (c =? "-")%char; simpl orb.
  - intros H. apply negb_true_iff in H. rewrite digits_no_digit by assumption. reflexivity.
  - destruct (c =? "+")%char; simpl orb; intros H; apply negb_true_iff in H.
    + rewrite digits_no_digit by assumption. reflexivity.
    + rewrite digits_no_digit by (simpl; assumption). reflexivity.
Qed.

Lemma no_failure_first_failure os fuel : no_failure os -> first_failure os fuel = None.
Proof.
  intros (H1 & H2 & H3 & H4 & Hacc).
  rewrite first_failure_accept by assumption.
  assert (Hnone : forall from, first_accept_failure os from fuel = None).
  { induction fuel as [| fuel IH]; intros from; simpl; [reflexivity |].
    destruct (Z.eqb_spec (accept_ret os from) (-1)) as [Hf | _];
      [exfalso; exact (Hacc from Hf) |].
    rewrite IH. reflexivity. }
  rewrite Hnone. reflexivity.
Qed.

Lemma error_line_is_error f : is_error_line (error_line f) = true.
Proof. destruct f; reflexivity. Qed.

Lemma port_line_no_error argc argv : is_error_line (port_line argc argv) = false.
Proof. unfold port_line. destruct (argc =? 2); reflexivity. Qed.

Lemma handling_lines_no_error hs : List.filter is_error_line (map handling_line hs) = [].
Proof.
  induction hs as [| fd hs IH]; simpl map; [reflexivity |].
  cbn [List.filter].
  replace (is_error_line (handling_line fd)) with false by reflexivity.
  exact IH.
Qed.

Lemma served_lines_no_error os port f hs :
  List.filter is_error_line (served_lines os port f hs) = [].
Proof.
  assert (Hlines : List.filter is_error_line
                     (listening_line (resolved_port os port) :: map handling_line hs) = []).
  { cbn [List.filter].
    replace (is_error_line (listening_line (resolved_port os port))) with false by reflexivity.
    apply handling_lines_no_error. }
  destruct f as [[] |]; simpl served_lines; solve [reflexivity | exact Hlines].
Qed.


End ProcFacts.

(* ===================================================================== *)
(** ** The console is write-only                                          *)
(* ===================================================================== *)

Module FrameFacts.
Import Inet Libc Proc Spec InetFacts ProcFacts.

Lemma blind_ret {A} (a : A) : console_blind (ret a).
Proof. intros pre w. reflexivity. Qed.

Lemma blind_throw {A} e : console_blind (@throw A e).
Proof. intros pre w. reflexivity. Qed.

Lemma blind_still_running {A} : console_blind (@still_running A).
Proof. intros pre w. reflexivity. Qed.

Lemma blind_bind {A B} (m : M A) (k : A -> M B) :
  console_blind m -> (forall a, console_blind (k a)) -> console_blind (bind m k).
Proof.
  intros Hm Hk pre w. unfold bind. rewrite Hm.
  destruct (m w) as [[a | e |] w1]; simpl; [apply Hk | reflexivity | reflexivity].
Qed.

Lemma blind_when b m : console_blind m -> console_blind (when b m).
Proof. intros Hm. destruct b; [exact Hm | apply blind_ret]. Qed.

Lemma blind_try_catch {A} (m : M A) h :
  console_blind m -> (forall e, console_blind (h e)) -> console_blind (try_catch m h).
Proof.
  intros Hm Hh pre w. unfold try_catch. rewrite Hm.
  destruct (m w) as [[a | e |] w1]; simpl; [reflexivity | apply Hh | reflexivity].
Qed.

Lemma blind_print s b : console_blind (thread_safe_print s b).
Proof.
  intros pre w. unfold thread_safe_print, put, prepend. simpl.
  rewrite app_assoc. reflexivity.
Qed.

Lemma blind_sys_socket os d t p : console_blind (sys_socket os d t p).
Proof. intros pre w. reflexivity. Qed.

Lemma blind_sys_setsockopt os fd l n v len : console_blind (sys_setsockopt os fd l n v len).
Proof. intros pre w. reflexivity. Qed.

Lemma blind_sys_bind os fd a len : console_blind (sys_bind os fd a len).
Proof. intros pre w. unfold sys_bind. destruct (bind_ret os =? -1); reflexivity. Qed.

Lemma blind_sys_getsockname os fd a : console_blind (sys_getsockname os fd a).
Proof.
  intros pre w. unfold sys_getsockname. simpl.
  destruct (getsockname_ret os =? -1); [reflexivity |].
  destruct (sock_name w); reflexivity.
Qed.

Lemma blind_sys_listen os fd q : console_blind (sys_listen os fd q).
Proof. intros pre w. reflexivity. Qed.

Lemma blind_sys_accept os fd : console_blind (sys_accept os fd).
Proof. intros pre w. reflexivity. Qed.

Lemma blind_spawn_detached fd : console_blind (spawn_detached fd).
Proof. intros pre w. reflexivity. Qed.

Lemma blind_run_thread os i : console_blind (run_thread os i).
Proof.
  intros pre w. unfold run_thread.
  change (detached (prepend pre w)) with (detached w).
  destruct (detached w !! i) as [fd |]; [| reflexivity].
  rewrite !handle_connection_run.
  unfold put, prepend. simpl. rewrite app_assoc. reflexivity.
Qed.

Lemma blind_run_threads os picks : console_blind (run_threads os picks).
Proof.
  induction picks as [| i picks IH]; simpl.
  - apply blind_ret.
  - apply blind_bind; [apply blind_run_thread | intros _; exact IH].
Qed.

Lemma blind_yield os : console_blind (yield os).
Proof.
  intros pre w. unfold yield. simpl.
  exact (blind_run_threads os (schedule os (ticks w)) pre (tick w)).
Qed.

Lemma blind_do_while fuel body cond :
  console_blind body -> console_blind (do_while fuel body cond).
Proof.
  intros Hb. induction fuel as [| fuel IH]; simpl.
  - apply blind_still_running.
  - apply blind_bind; [exact Hb |]. intros _. destruct cond; [exact IH | apply blind_ret].
Qed.

Lemma blind_get_port_number os fd : console_blind (get_port_number os fd).
Proof.
  unfold get_port_number.
  apply blind_bind; [apply blind_sys_getsockname |]. intros [rc a].
  apply blind_bind; [apply blind_when, blind_throw | intros _; apply blind_ret].
Qed.

Create HintDb blind.
#[local] Hint Resolve blind_ret blind_throw blind_still_running blind_when
  blind_print blind_sys_socket blind_sys_setsockopt blind_sys_bind
  blind_sys_listen blind_sys_accept blind_spawn_detached blind_yield
  blind_get_port_number blind_do_while : blind.

Lemma blind_run_server os port q fuel : console_blind (run_server os port q fuel).
Proof.
  unfold run_server.
  repeat (apply blind_bind; [auto with blind | intros ?]).
  apply blind_do_while.
  repeat (apply blind_bind; [auto with blind | intros ?]).
  apply blind_yield.
Qed.

Lemma put_prepend s w : put s w = prepend (console w ++ [s]) (clear w).
Proof. unfold put, prepend, clear. simpl. rewrite app_nil_r. reflexivity. Qed.

(** One run of [main] from [w] and one with another port line differ in
    that line only, when they request the same port. *)
Lemma main_differs_in_port_line os argc argv argc' argv' fuel w :
  argc <= 2 -> argc' <= 2 ->
  requested_port argc argv = requested_port argc' argv' ->
  exists r tl w1 w2,
    main os argc argv fuel w = (r, w1) /\
    main os argc' argv' fuel w = (r, w2) /\
    console w1 = console w ++ port_line argc argv :: tl /\
    console w2 = console w ++ port_line argc' argv' :: tl /\
    calls w1 = calls w2 /\ sock_name w1 = sock_name w2 /\
    accepts w1 = accepts w2 /\ detached w1 = detached w2.
Proof.
  intros Ha Ha' Hport.
  rewrite !main_serves by assumption. rewrite <- Hport.
  rewrite !put_prepend, !blind_run_server.
  destruct (run_server os (requested_port argc argv) SERVER_SOCKET_QUEUE_SIZE_c fuel (clear w))
    as [[[] | err |] w0]; simpl.
  - exists (Normal 0), (console w0). eexists _, _.
    repeat split; simpl; rewrite <- app_assoc; reflexivity.
  - exists (Normal (-1)), (console w0 ++ [(what err ++ endl)%string]). eexists _, _.
    repeat split; simpl; rewrite <- !app_assoc; reflexivity.
  - exists Running, (console w0). eexists _, _.
    repeat split; simpl; rewrite <- app_assoc; reflexivity.
Qed.

Lemma usage_line_not_served os port f hs :
  ~ In usage_line (served_lines os port f hs ++ last_lines f).
Proof.
  intros Hin. apply in_app_or in Hin. destruct Hin as [Hin | Hin].
  - assert (Hlines : In usage_line
                       (listening_line (resolved_port os port) :: map handling_line hs)
                     -> False).
    { intros [Heq | Hmap]; [discriminate Heq |].
      apply in_map_iff in Hmap. destruct Hmap as (fd & Heq & _). discriminate Heq. }
    destruct f as [[] |]; simpl in Hin; solve [contradiction | apply Hlines, Hin].
  - destruct f as [f |]; [| contradiction].
    destruct f; simpl in Hin; destruct Hin as [Heq | []]; discriminate Heq.
Qed.

Lemma bind_ext {A B} (m1 m2 : M A) (k1 k2 : A -> M B) (w : world) :
  m1 w = m2 w -> (forall a w', k1 a w' = k2 a w') -> bind m1 k1 w = bind m2 k2 w.
Proof.
  intros Hm Hk. unfold bind. rewrite Hm.
  destruct (m2 w) as [[a | e |] w']; [apply Hk | reflexivity | reflexivity].
Qed.

Lemma do_while_ext (b1 b2 : M unit) (cond : bool) :
  (forall w, b1 w = b2 w) ->
  forall fuel w, do_while fuel b1 cond w = do_while fuel b2 cond w.
Proof.
  intros Hb fuel. induction fuel as [| fuel IH]; intros w; simpl; [reflexivity |].
  apply bind_ext; [apply Hb |]. intros _ w'. destruct cond; [apply IH | reflexivity].
Qed.

Lemma run_threads_listen_ret r os picks :
  forall w, run_threads (with_listen_ret r os) picks w = run_threads os picks w.
Proof.
  induction picks as [| i picks IH]; intros w; simpl; [reflexivity |].
  apply bind_ext; [| intros _ w'; apply IH].
  unfold run_thread. destruct (detached w !! i) as [fd |]; [| reflexivity].
  rewrite !handle_connection_run. reflexivity.
Qed.

Lemma accept_body_listen_ret r os fd w :
  accept_body (with_listen_ret r os) fd w = accept_body os fd w.
Proof.
  unfold accept_body.
  apply bind_ext; [reflexivity |]. intros c w1.
  apply bind_ext; [reflexivity |]. intros _ w2.
  apply bind_ext; [reflexivity |]. intros _ w3.
  unfold yield. apply run_threads_listen_ret.
Qed.

(** The value [listen] returns has no influence on a run. *)
Lemma run_server_listen_ret r os port q fuel w :
  run_server (with_listen_ret r os) port q fuel w = run_server os port q fuel w.
Proof.
  unfold run_server.
  apply bind_ext; [reflexivity |]; intros socket_fd w1.
  do 6 (apply bind_ext; [reflexivity |]; intros ? ?).
  apply bind_ext; [reflexivity |]; intros _ w8.
  change (do_while fuel (accept_body (with_listen_ret r os) socket_fd) true
            (log (Listen socket_fd q) w8)
          = do_while fuel (accept_body os socket_fd) true (log (Listen socket_fd q) w8)).
  apply do_while_ext. intros w0. apply accept_body_listen_ret.
Qed.

Lemma main_listen_ret r os argc argv fuel w :
  main (with_listen_ret r os) argc argv fuel w = main os argc argv fuel w.
Proof.
  destruct (Z_le_gt_dec argc 2) as [Hle | Hgt].
  - rewrite !main_serves by assumption. rewrite run_server_listen_ret. reflexivity.
  - rewrite !main_usage by assumption. reflexivity.
Qed.

End FrameFacts.

(* ===================================================================== *)
(** ** The claims of the specification                                    *)
(* ===================================================================== *)

(** The claims on the sequential statements of the program, in [Proc].
    The claims on what the handler threads print and on how
    [run_server] is left are in [ConcClaims], on the program with its
    threads. *)

Module Claims.
Import Inet Libc Proc Spec Hosts InetFacts ProcFacts FrameFacts.

(** C1: for a requested port P in [1,65535], storing [htons(P)] in the
    endpoint ([make_server_sockaddr]) and reading the bound port back
    with [ntohs] ([get_port_number]) gives P again; on a host where the
    start-up succeeds, [run_server] has then bound the socket, printed P
    as the port it listens on, and called [listen]. *)
Theorem resolved_port_is_requested_port (os : OS) (P : Z) (w : world) :
  1 <= P <= 65535 ->
  socket_ret os <> -1 -> setsockopt_ret os <> -1 ->
  bind_ret os <> -1 -> getsockname_ret os <> -1 ->
  (forall addr,
      ntohs (host_order os) (sin_port (make_server_sockaddr os addr P)) = P) /\
  (forall fd,
      fst (bind (sys_bind os fd (make_server_sockaddr os (stack_addr os) P)
                   sizeof_sockaddr_in)
             (fun _ => get_port_number os fd) w) = Normal P) /\
  (forall q, exists w',
      run_server os P q 0 w = (Running, w') /\
      console w' = console w ++ [listening_line P] /\
      last (calls w') = Some (Listen (socket_ret os) q)).
Proof.
  intros HP H1 H2 H3 H4.
  assert (Hmod : P mod 65536 = P) by (apply Z.mod_small; lia).
  assert (Hres : resolved_port os P = P)
    by (rewrite resolved_port_explicit; lia).
  split; [| split].
  - intros addr. simpl. rewrite ntohs_htons. exact Hmod.
  - intros fd. unfold bind at 1, sys_bind.
    destruct (Z.eqb_spec (bind_ret os) (-1)) as [? | _]; [contradiction |].
    erewrite get_port_number_bound by (try reflexivity; assumption).
    cbn [fst]. f_equal. exact Hres.
  - intros q. unfold run_server.
    unfold bind at 1, sys_socket at 1.
    destruct (Z.eqb_spec (socket_ret os) (-1)) as [? | _]; [contradiction |].
    unfold bind at 1, when at 1, ret at 1.
    unfold bind at 1, sys_setsockopt at 1.
    destruct (Z.eqb_spec (setsockopt_ret os) (-1)) as [? | _]; [contradiction |].
    unfold bind at 1, when at 1, ret at 1.
    unfold bind at 1, sys_bind at 1.
    destruct (Z.eqb_spec (bind_ret os) (-1)) as [? | _]; [contradiction |].
    destruct (Z.eqb_spec (bind_ret os) (-1)) as [? | _]; [contradiction |].
    unfold bind at 1, when at 1, ret at 1.
    unfold bind at 1.
    erewrite get_port_number_bound by (try reflexivity; assumption).
    change (ntohs _ (sin_port (kernel_name os _))) with (resolved_port os P).
    rewrite Hres.
    eexists. split; [reflexivity |]. simpl. split; [reflexivity |].
    rewrite last_snoc. reflexivity.
Qed.

Lemma resolved_port_is_requested_port_witness :
  exists w',
    run_server friendly 8080 30 0 initial = (Running, w') /\
    console w' = console initial ++ [listening_line 8080] /\
    last (calls w') = Some (Listen (socket_ret friendly) 30).
Proof.
  apply (resolved_port_is_requested_port friendly 8080 initial);
    simpl; lia.
Defined.



(** C3, what the code does: after a successful bind and port query
    [run_server] calls [listen] with the backlog 30 that [main] passes,
    and drops the result: where [listen] returns -1 and nothing else
    fails, no error is raised or printed and the server goes on to call
    [accept], once per loop iteration; the run is the one of the host
    on which [listen] returned 0. *)
Theorem listen_failure_is_ignored
    (os : OS) (argc : Z) (argv : list string) (fuel : nat) :
  argc <= 2 ->
  listen_ret os = -1 ->
  first_failure os (S fuel) = None ->
  main os argc argv (S fuel) initial
  = main (with_listen_ret 0 os) argc argv (S fuel) initial /\
  exists hs w',
    main os argc argv (S fuel) initial = (Running, w') /\
    calls w' =
      [ Socket AF_INET SOCK_STREAM 0;
        Setsockopt (socket_ret os) SOL_SOCKET SO_REUSEADDR 1 sizeof_int;
        Bind (socket_ret os) (endpoint os (requested_port argc argv)) sizeof_sockaddr_in;
        Getsockname (socket_ret os);
        Listen (socket_ret os) 30;
        Accept (socket_ret os) ] ++ repeat (Accept (socket_ret os)) fuel /\
    console w' =
      port_line argc argv
        :: listening_line (resolved_port os (requested_port argc argv))
        :: map handling_line hs /\
    List.filter is_error_line (console w') = [].
Proof.
  intros Hargc _ Hnone.
  split; [symmetry; apply main_listen_ret |].
  destruct (main_spec os argc argv (S fuel) initial Hargc eq_refl)
    as (r & hs & w' & Hmain & Hr & Hcalls & Hcons & _).
  rewrite Hnone in Hr, Hcalls, Hcons. subst r. simpl in Hcalls, Hcons.
  rewrite app_nil_r in Hcons.
  exists hs, w'. split; [exact Hmain |]. split; [exact Hcalls |].
  split; [exact Hcons |].
  rewrite Hcons. cbn [List.filter]. rewrite port_line_no_error.
  exact (served_lines_no_error os (requested_port argc argv) None hs).
Qed.

Lemma listen_failure_is_ignored_witness :
  exists hs w',
    main deaf 1 ["./server"]%string 1 initial = (Running, w') /\
    calls w' =
      [ Socket AF_INET SOCK_STREAM 0;
        Setsockopt 3 SOL_SOCKET SO_REUSEADDR 1 sizeof_int;
        Bind 3 (endpoint deaf 0) sizeof_sockaddr_in;
        Getsockname 3;
        Listen 3 30;
        Accept 3 ] /\
    console w' =
      port_line 1 ["./server"]%string
        :: listening_line (resolved_port deaf 0)
        :: map handling_line hs /\
    List.filter is_error_line (console w') = [].
Proof.
  apply (listen_failure_is_ignored deaf 1 ["./server"]%string 0).
  - lia.
  - reflexivity.
  - reflexivity.
Defined.

(** C4: called with two or more command-line arguments ([argc > 2]),
    [main] writes the usage message and nothing else, issues no system
    call, leaves the rest of the process state alone and returns -1, a
    non-zero exit code. *)
Theorem usage_error_before_any_socket_work
    (os : OS) (argc : Z) (argv : list string) (fuel : nat) (w : world) :
  argc > 2 ->
  exists w',
    main os argc argv fuel w = (Normal (-1), w') /\
    -1 <> 0 /\
    console w' = console w ++ [usage_line] /\
    calls w' = calls w /\
    sock_name w' = sock_name w /\
    accepts w' = accepts w /\
    detached w' = detached w.
Proof.
  intros Hargc. exists (put usage_line w).
  rewrite main_usage by assumption.
  repeat split; lia.
Qed.

Lemma usage_error_before_any_socket_work_witness :
  exists w',
    main friendly 3 ["./server"; "80"; "81"]%string 5 initial = (Normal (-1), w') /\
    -1 <> 0 /\
    console w' = console initial ++ [usage_line] /\
    calls w' = calls initial /\
    sock_name w' = sock_name initial /\
    accepts w' = accepts initial /\
    detached w' = detached initial.
Proof.
  apply (usage_error_before_any_socket_work friendly 3
           ["./server"; "80"; "81"]%string 5 initial).
  lia.
Defined.

(** C6, as the code has it: a single port argument that, after optional
    white space and an optional sign, does not go on with a decimal digit
    is converted to 0 by [atoi]; [main] then prints the line for port 0
    and runs exactly as it does without an argument, the first line of
    output apart: same result, same system calls, same further output.
    No usage message is printed. *)
Theorem argument_without_number_means_any_port
    (os : OS) (prog arg : string) (fuel : nat) :
  no_leading_number arg = true ->
  atoi arg = 0 /\
  exists r tl w1 w0,
    main os 2 [prog; arg] fuel initial = (r, w1) /\
    main os 1 [prog] fuel initial = (r, w0) /\
    console w1 = selected_line 0 :: tl /\
    console w0 = unspecified_line :: tl /\
    ~ In usage_line (console w1) /\
    calls w1 = calls w0 /\ sock_name w1 = sock_name w0 /\
    accepts w1 = accepts w0 /\ detached w1 = detached w0.
Proof.
  intros Harg. pose proof (atoi_no_leading_number arg Harg) as Hzero.
  split; [exact Hzero |].
  assert (Hport : requested_port 2 [prog; arg] = requested_port 1 [prog])
    by (unfold requested_port; simpl; exact Hzero).
  destruct (main_differs_in_port_line os 2 [prog; arg] 1 [prog] fuel initial
              ltac:(lia) ltac:(lia) Hport)
    as (r & tl & w1 & w0 & Hm1 & Hm0 & Hc1 & Hc0 & Hrest).
  assert (Hline : port_line 2 [prog; arg] = selected_line 0)
    by (unfold port_line; simpl; rewrite Hzero; reflexivity).
  rewrite Hline in Hc1. simpl in Hc1, Hc0.
  exists r, tl, w1, w0.
  split; [exact Hm1 |]. split; [exact Hm0 |].
  split; [exact Hc1 |]. split; [exact Hc0 |].
  split; [| exact Hrest].
  destruct (main_spec os 2 [prog; arg] fuel initial ltac:(lia) eq_refl)
    as (r' & hs & w' & Hm & _ & _ & Hcons & _).
  rewrite Hm1 in Hm. injection Hm as _ <-.
  rewrite Hcons. simpl. intros [Heq | Hin].
  - rewrite Hline in Heq. discriminate Heq.
  - exact (usage_line_not_served _ _ _ _ Hin).
Qed.

Lemma argument_without_number_means_any_port_witness : atoi "abc" = 0.
Proof.
  apply (argument_without_number_means_any_port friendly "./server" "abc" 3).
  reflexivity.
Defined.

(** C6 as stated fails: the argument 80abc is not a number, and [atoi]
    converts it to 80; [main] announces port 80. *)
Lemma malformed_argument_with_leading_number :
  numeric "80abc" = false /\
  atoi "80abc" = 80 /\
  (exists w', main friendly 2 ["./server"; "80abc"]%string 0 initial = (Running, w') /\
              hd_error (console w') = Some (selected_line 80)) /\
  ~ (forall arg, numeric arg = false -> atoi arg = 0).
Proof.
  split; [reflexivity |]. split; [reflexivity |]. split.
  - eexists. split; reflexivity.
  - intros H. specialize (H "80abc"%string eq_refl). discriminate H.
Qed.

(** C8: for every integer port, [make_server_sockaddr] yields (it is a
    total function that has no access to the process state) the endpoint
    with family [AF_INET], address [INADDR_ANY] and port field
    [htons(port)], whose two bytes in memory are the big-endian encoding
    of the port reduced to 16 bits; the padding of the structure is left
    as it was. *)
Theorem make_server_sockaddr_builds_endpoint (os : OS) (addr : sockaddr_in) (port : Z) :
  make_server_sockaddr os addr port =
    {| sin_family := AF_INET;
       sin_port := htons (host_order os) port;
       sin_addr := {| s_addr := INADDR_ANY |};
       sin_zero := sin_zero addr |} /\
  host_bytes (host_order os) (sin_port (make_server_sockaddr os addr port))
    = net_bytes (uint16 port) /\
  (make_server_sockaddr os addr 0 =
     {| sin_family := AF_INET; sin_port := 0;
        sin_addr := {| s_addr := INADDR_ANY |}; sin_zero := sin_zero addr |}).
Proof.
  split; [reflexivity |]. split; [apply htons_on_the_wire |].
  unfold make_server_sockaddr. simpl. f_equal.
  destruct (host_order os); reflexivity.
Qed.

(** C9: for every connection handle, [handle_connection] ends normally
    with its 4096-byte array [client_message] all zero, whatever the
    array held before; it issues no system call, so nothing is read from
    or written to the connection, and apart from its one console line
    the process state is as before. *)
Theorem handle_connection_clears_buffer (os : OS) (connection_fd : Z) (w : world) :
  exists client_message w',
    handle_connection os connection_fd w = (Normal client_message, w') /\
    length client_message = 4096%nat /\
    Forall (fun b => b = Byte.x00) client_message /\
    calls w' = calls w /\
    console w' = console w ++ [handling_line connection_fd] /\
    sock_name w' = sock_name w /\
    accepts w' = accepts w /\
    detached w' = detached w.
Proof.
  exists (repeat Byte.x00 MAX_MESSAGE_SIZE_IN_BYTES_c), (put (handling_line connection_fd) w).
  split; [apply handle_connection_run |].
  split; [apply repeat_length |].
  split; [| repeat split].
  apply List.Forall_forall. intros b Hb. apply repeat_spec in Hb. exact Hb.
Qed.

(** C10, as the code has it: for every integer port p the port number
    encoded into the endpoint is p reduced modulo 2^16, and the server
    run for p is the server run for that residue: requesting 65536 is
    requesting 0. A negative p that is not a multiple of 65536 encodes
    65536 plus its (negative) C remainder by 65536; a negative multiple
    of 65536 encodes 0. *)
Theorem port_is_truncated_to_16_bits (os : OS) (p : Z) :
  encoded_port os p = p mod 65536 /\
  (forall q fuel, run_server os p q fuel = run_server os (p mod 65536) q fuel) /\
  endpoint os 65536 = endpoint os 0 /\
  (forall q fuel, run_server os 65536 q fuel = run_server os 0 q fuel) /\
  (p < 0 -> Z.rem p 65536 <> 0 -> encoded_port os p = 65536 + Z.rem p 65536) /\
  (p < 0 -> Z.rem p 65536 = 0 -> encoded_port os p = 0).
Proof.
  split; [apply encoded_port_mod |].
  split; [intros; apply run_server_same_endpoint; symmetry; apply endpoint_mod |].
  assert (H0 : endpoint os 65536 = endpoint os 0) by (rewrite <- endpoint_mod; reflexivity).
  split; [exact H0 |].
  split; [intros; apply run_server_same_endpoint, H0 |].
  rewrite encoded_port_mod.
  split; intros Hneg Hrem.
  - pose proof (Z.div_mod p 65536 ltac:(lia)).
    pose proof (Z.mod_pos_bound p 65536 ltac:(lia)).
    pose proof (Z.quot_rem' p 65536).
    pose proof (Z.rem_bound_pos_neg p 65536 ltac:(lia) ltac:(lia)).
    lia.
  - pose proof (Z.div_mod p 65536 ltac:(lia)).
    pose proof (Z.mod_pos_bound p 65536 ltac:(lia)).
    pose proof (Z.quot_rem' p 65536).
    lia.
Qed.

Lemma port_is_truncated_to_16_bits_witness :
  encoded_port friendly (-1) = 65536 + Z.rem (-1) 65536 /\
  encoded_port friendly (-131072) = 0.
Proof.
  split.
  - apply (port_is_truncated_to_16_bits friendly (-1)); [lia | discriminate].
  - apply (port_is_truncated_to_16_bits friendly (-131072)); [lia | reflexivity].
Defined.

(** The formula of C10 for negative ports, read with the remainder of C
    or with the non-negative one, fails at p = -65536: the encoded port
    is 0 there, not 65536. *)
Lemma negative_port_formula_fails :
  encoded_port friendly (-65536) = 0 /\
  65536 + Z.rem (-65536) 65536 = 65536 /\
  65536 + (-65536) mod 65536 = 65536 /\
  ~ (forall os p, p < 0 -> encoded_port os p = 65536 + Z.rem p 65536) /\
  ~ (forall os p, p < 0 -> encoded_port os p = 65536 + p mod 65536).
Proof.
  repeat split; try reflexivity;
    intros H; specialize (H friendly (-65536) ltac:(lia)); discriminate H.
Qed.

End Claims.

(* ===================================================================== *)
(** ** Numerals, fuel and schedules                                       *)
(* ===================================================================== *)

Module MoreFacts.
Import Inet Libc Proc Spec Hosts More InetFacts ProcFacts FrameFacts.

(** *** Strings *)

Lemma string_append_assoc (a b c : string) : ((a ++ b) ++ c = a ++ (b ++ c))%string.
Proof. induction a as [| x a IH]; simpl; [reflexivity | rewrite IH; reflexivity]. Qed.

Lemma string_length_append (a b : string) :
  String.length (a ++ b) = (String.length a + String.length b)%nat.
Proof. induction a as [| x a IH]; simpl; [reflexivity | rewrite IH; reflexivity]. Qed.

Lemma string_append_inv_tail (t : string) : forall a b : string,
  (a ++ t = b ++ t)%string -> a = b.
Proof.
  induction a as [| x a IH]; intros [| y b] Heq; simpl in Heq.
  - reflexivity.
  - apply (f_equal String.length) in Heq. simpl in Heq.
    rewrite string_length_append in Heq. lia.
  - apply (f_equal String.length) in Heq. simpl in Heq.
    rewrite string_length_append in Heq. lia.
  - injection Heq as -> Heq. f_equal. apply IH, Heq.
Qed.

(** *** Decimal numerals *)

Lemma digits_of_uint_acc (d : Decimal.uint) : forall acc : positive,
  digits (Z.pos acc) (NilEmpty.string_of_uint d) = Z.pos (Pos.of_uint_acc d acc).
Proof.
  induction d; intros acc; cbn [NilEmpty.string_of_uint Pos.of_uint_acc digits];
    try reflexivity;
    (change (isdigit _) with true; cbv iota;
     match goal with
     | |- digits ?v _ = _ =>
         match goal with
         | |- _ = Z.pos (Pos.of_uint_acc _ ?q) => replace v with (Z.pos q)
         end
     end; [apply IHd | set (dv := digit_value _); vm_compute in dv; subst dv; lia]).
Qed.

Lemma digits_of_uint (d : Decimal.uint) :
  digits 0 (NilEmpty.string_of_uint d) = Z.of_N (Pos.of_uint d).
Proof.
  induction d; cbn [NilEmpty.string_of_uint Pos.of_uint digits];
    try reflexivity; try exact IHd;
    (change (isdigit _) with true; cbv iota;
     match goal with
     | |- digits ?v _ = Z.of_N (N.pos (Pos.of_uint_acc _ ?q)) =>
         change v with (Z.pos q)
     end; apply digits_of_uint_acc).
Qed.

Lemma digits_to_uint (p : positive) :
  digits 0 (NilZero.string_of_uint (Pos.to_uint p)) = Z.pos p.
Proof.
  pose proof (Unsigned.to_uint_nonnil p) as Hnil.
  unfold NilZero.string_of_uint.
  destruct (Pos.to_uint p) eqn:Hd; try contradiction;
    rewrite <- Hd, digits_of_uint, Unsigned.of_to; reflexivity.
Qed.

Lemma digit_char (c : ascii) :
  isdigit c = true ->
  isspace c = false /\ (c =? "-")%char = false /\ (c =? "+")%char = false.
Proof.
  destruct c as [[] [] [] [] [] [] [] []]; vm_compute; intros H;
    repeat split; solve [reflexivity | discriminate H].
Qed.

Lemma strtol_digit_start (c : ascii) (rest : string) :
  isdigit c = true ->
  strtol (String c rest) = Z.max LONG_MIN (Z.min LONG_MAX (digits 0 (String c rest))).
Proof.
  intros Hd. destruct (digit_char c Hd) as (Hs & Hm & Hp).
  unfold strtol. cbn [skip_space]. rewrite Hs, Hm, Hp. reflexivity.
Qed.

Lemma string_of_uint_digit_start (d : Decimal.uint) :
  exists c rest, NilZero.string_of_uint d = String c rest /\ isdigit c = true.
Proof. destruct d; simpl; eexists _, _; split; reflexivity. Qed.

Lemma strtol_to_string (n : Z) :
  strtol (to_string n) = Z.max LONG_MIN (Z.min LONG_MAX n).
Proof.
  destruct n as [| p | p]; [reflexivity | |].
  - unfold to_string. cbn [Z.to_int NilZero.string_of_int].
    destruct (string_of_uint_digit_start (Pos.to_uint p)) as (c & rest & Hs & Hd).
    rewrite Hs, strtol_digit_start by exact Hd.
    rewrite <- Hs, digits_to_uint. reflexivity.
  - unfold to_string. cbn [Z.to_int NilZero.string_of_int].
    unfold strtol. cbn [skip_space].
    change (isspace "-") with false. cbv iota.
    change ("-" =? "-")%char with true. cbv iota.
    rewrite digits_to_uint. reflexivity.
Qed.

Lemma to_int_range (x : Z) : int_range (to_int x).
Proof.
  unfold int_range, to_int.
  pose proof (Z.mod_pos_bound (x + 2147483648) 4294967296 ltac:(lia)). lia.
Qed.

Lemma to_int_id (x : Z) : int_range x -> to_int x = x.
Proof.
  unfold int_range, to_int. intros Hx.
  rewrite Z.mod_small by lia. lia.
Qed.

Lemma atoi_range (s : string) : int_range (atoi s).
Proof. apply to_int_range. Qed.

Lemma atoi_to_string (n : Z) : int_range n -> atoi (to_string n) = n.
Proof.
  intros Hn. unfold atoi. rewrite strtol_to_string.
  unfold int_range, LONG_MIN, LONG_MAX in *.
  rewrite Z.min_r, Z.max_r by lia. apply to_int_id. exact Hn.
Qed.

Lemma to_string_inj (a b : Z) : to_string a = to_string b -> a = b.
Proof.
  unfold to_string. intros Heq.
  assert (Hnz : forall z, Z.to_int z <> Decimal.Pos Decimal.Nil /\
                          Z.to_int z <> Decimal.Neg Decimal.Nil).
  { intros [| p | p]; simpl; split; try discriminate;
      intros H; injection H as H; exact (Unsigned.to_uint_nonnil p H). }
  apply (f_equal NilZero.int_of_string) in Heq.
  rewrite !NilZero.isi in Heq by apply Hnz.
  injection Heq as Heq. apply (f_equal Z.of_int) in Heq.
  rewrite !DecimalZ.of_to in Heq. exact Heq.
Qed.

Lemma handling_line_inj (a b : Z) : handling_line a = handling_line b -> a = b.
Proof.
  unfold handling_line. intros Heq.
  apply to_string_inj, (string_append_inv_tail endl).
  unfold HANDLING_NEW_CONNECTION_c in Heq. simpl in Heq.
  injection Heq as Heq. exact Heq.
Qed.

(** *** The start-up *)

(** One statement of the start-up of [run_server]: the call, then the
    test of its result, which passes. *)
Ltac passes c :=
  destruct (Z.eqb_spec c (-1)) as [? | _]; [contradiction |].



(** *** Ports *)

Lemma ntohs_range bo (x : Z) : 0 <= ntohs bo x < 65536.
Proof. exact (htons_range bo x). Qed.

Lemma htons_mod bo (p : Z) : htons bo (p mod 65536) = htons bo p.
Proof. unfold htons, uint16. rewrite Z.mod_mod by lia. reflexivity. Qed.

Lemma htons_zero bo : htons bo 0 = 0.
Proof. destruct bo; reflexivity. Qed.

(** *** Runs *)

Lemma stream_app (l m : list string) :
  fold_right String.append EmptyString (l ++ m)
  = (fold_right String.append EmptyString l
       ++ fold_right String.append EmptyString m)%string.
Proof.
  induction l as [| x l IH]; simpl; [reflexivity |].
  rewrite IH, string_append_assoc. reflexivity.
Qed.

Lemma same_kind_of_error_line f g : error_line f = error_line g -> same_kind f g = true.
Proof. destruct f, g; intros H; solve [reflexivity | discriminate H]. Qed.



Lemma port_line_not_served os argc argv port f hs :
  ~ In (port_line argc argv) (served_lines os port f hs ++ last_lines f).
Proof.
  intros Hin. unfold port_line in Hin. apply in_app_or in Hin.
  destruct Hin as [Hin | Hin].
  - assert (Hlines : In (if argc =? 2
                         then selected_line (atoi (nth 1 argv EmptyString))
                         else unspecified_line)
                       (listening_line (resolved_port os port) :: map handling_line hs)
                     -> False).
    { intros [Heq | Hmap].
      - destruct (argc =? 2); discriminate Heq.
      - apply in_map_iff in Hmap. destruct Hmap as (fd & Heq & _).
        destruct (argc =? 2); discriminate Heq. }
    destruct f as [[] |]; simpl in Hin; solve [contradiction | apply Hlines, Hin].
  - destruct f as [f |]; [| contradiction].
    destruct f; simpl in Hin; destruct Hin as [Heq | []];
      destruct (argc =? 2); discriminate Heq.
Qed.

Lemma served_lines_nodup os port f hs :
  NoDup hs -> NoDup (served_lines os port f hs ++ last_lines f).
Proof.
  intros Hnd.
  assert (Hmap : NoDup (map handling_line hs)).
  { assert (Hinj : Inj (=) (=) handling_line) by (intros a b; apply handling_line_inj).
    exact (NoDup_fmap_2 handling_line hs Hnd). }
  assert (Hlist : forall tl, (forall l, In l tl -> is_error_line l = true) -> NoDup tl ->
                    NoDup ((listening_line (resolved_port os port) :: map handling_line hs)
                             ++ tl)).
  { intros tl Htl Hndtl. apply NoDup_app. split; [| split; [| exact Hndtl]].
    - apply NoDup_cons_2; [| exact Hmap].
      intros Hin. apply list_elem_of_In, in_map_iff in Hin.
      destruct Hin as (fd & Heq & _). discriminate Heq.
    - intros l Hin Hin'. apply list_elem_of_In in Hin, Hin'.
      specialize (Htl l Hin'). destruct Hin as [<- | Hin]; [discriminate Htl |].
      apply in_map_iff in Hin. destruct Hin as (fd & <- & _). discriminate Htl. }
  destruct f as [f |].
  - assert (Hone : NoDup [error_line f]) by (apply NoDup_singleton).
    assert (Herr : forall l, In l [error_line f] -> is_error_line l = true)
      by (intros l [<- | []]; apply error_line_is_error).
    destruct f; simpl served_lines; simpl last_lines;
      solve [exact Hone | exact (Hlist _ Herr Hone)].
  - simpl. apply (Hlist [] ltac:(intros l []) NoDup_nil_2).
Qed.

End MoreFacts.

(* ===================================================================== *)
(** ** Further properties of the program                                  *)
(* ===================================================================== *)

Module Extras.
Import Inet Libc Proc Spec Hosts More InetFacts ProcFacts FrameFacts MoreFacts.

(** X1: [get_port_number] issues one [getsockname] call and touches
    nothing else; it throws the port-query error exactly when the call
    returns -1, and otherwise returns a port number between 0 and
    65535. *)
Theorem get_port_number_reports (os : OS) (sock_fd : Z) (w : world) :
  (getsockname_ret os = -1 ->
   get_port_number os sock_fd w
   = (Thrown (Server_Error ENCOUNTERED_ERROR_FETCHING_SOCKET_PORT_c),
      log (Getsockname sock_fd) w)) /\
  (getsockname_ret os <> -1 ->
   exists port,
     get_port_number os sock_fd w = (Normal port, log (Getsockname sock_fd) w) /\
     0 <= port <= 65535).
Proof.
  split; [apply get_port_number_fails |].
  intros Hok. unfold get_port_number, bind, sys_getsockname.
  destruct (Z.eqb_spec (getsockname_ret os) (-1)) as [? | _]; [contradiction |].
  destruct (sock_name w) as [a |]; simpl;
    (destruct (Z.eqb_spec (getsockname_ret os) (-1)) as [? | _]; [contradiction |]);
    eexists; (split; [reflexivity |]);
    match goal with
    | |- _ <= ntohs ?bo ?x <= _ => pose proof (ntohs_range bo x); lia
    end.
Qed.

Lemma get_port_number_reports_witness :
  get_port_number unnamed 3 initial
  = (Thrown (Server_Error ENCOUNTERED_ERROR_FETCHING_SOCKET_PORT_c),
     log (Getsockname 3) initial) /\
  exists port,
    get_port_number friendly 3 initial = (Normal port, log (Getsockname 3) initial) /\
    0 <= port <= 65535.
Proof.
  split.
  - apply (get_port_number_reports unnamed 3 initial). reflexivity.
  - apply (get_port_number_reports friendly 3 initial). discriminate.
Defined.

(** X2: two requested ports give the same endpoint exactly when they
    agree modulo 2^16, and the port field is 0 (the system is asked to
    choose) exactly for the multiples of 2^16. *)
Theorem endpoints_agree_iff (os : OS) (addr : sockaddr_in) (p q : Z) :
  (make_server_sockaddr os addr p = make_server_sockaddr os addr q
   <-> p mod 65536 = q mod 65536) /\
  (sin_port (make_server_sockaddr os addr p) = 0 <-> p mod 65536 = 0).
Proof.
  split; split.
  - intros Heq. apply (f_equal sin_port) in Heq. simpl in Heq.
    apply (f_equal (ntohs (host_order os))) in Heq.
    rewrite !ntohs_htons in Heq. exact Heq.
  - intros Heq. unfold make_server_sockaddr. simpl. f_equal.
    rewrite <- (htons_mod _ p), <- (htons_mod _ q), Heq. reflexivity.
  - simpl. intros Heq. apply (f_equal (ntohs (host_order os))) in Heq.
    rewrite ntohs_htons in Heq. unfold uint16 in Heq. rewrite Heq.
    destruct (host_order os); reflexivity.
  - simpl. intros Heq. rewrite <- htons_mod, Heq. apply htons_zero.
Qed.

Lemma endpoints_agree_iff_witness :
  make_server_sockaddr friendly zeroed 65616 = make_server_sockaddr friendly zeroed 80 /\
  sin_port (make_server_sockaddr friendly zeroed 131072) = 0.
Proof.
  split.
  - apply (endpoints_agree_iff friendly zeroed 65616 80). reflexivity.
  - apply (endpoints_agree_iff friendly zeroed 131072 0). reflexivity.
Defined.



(** X9: the error message that ends the output tells which operation
    failed: if the first failure of a run is of kind [f] and the last
    line on the console is the message of kind [g], then [f] and [g]
    are failures of the same operation. *)
Theorem error_line_names_the_failure
    (os : OS) (argc : Z) (argv : list string) (fuel : nat) (f g : failure) :
  argc <= 2 ->
  first_failing os fuel f ->
  last (console (snd (main os argc argv fuel initial))) = Some (error_line g) ->
  same_kind f g = true.
Proof.
  intros Hle Hfirst Hlast.
  apply first_failing_first_failure in Hfirst.
  destruct (main_spec os argc argv fuel initial Hle eq_refl)
    as (r & hs & w' & Hm & _ & _ & Hcons & _).
  rewrite Hm in Hlast. cbn [snd] in Hlast.
  rewrite Hfirst in Hcons. cbn [console initial last_lines app] in Hcons.
  rewrite Hcons, app_comm_cons, last_snoc in Hlast.
  injection Hlast as Heq. apply same_kind_of_error_line, Heq.
Qed.

Lemma error_line_names_the_failure_witness : same_kind BindError BindError = true.
Proof.
  apply (error_line_names_the_failure taken 2 ["./server"; "80"]%string 3
           BindError BindError).
  - lia.
  - repeat split; simpl; lia.
  - vm_compute. reflexivity.
Defined.

(** X10: the port argument acts only through the number [atoi] reads
    from it. That number is a 32-bit [int]; [std::to_string] and [atoi]
    round-trip on every [int]; so the run for an argument is the run
    for the number printed on the port line. *)
Theorem port_argument_is_normalised
    (os : OS) (prog arg : string) (fuel : nat) (w : world) :
  int_range (atoi arg) /\
  (forall n, int_range n -> atoi (to_string n) = n) /\
  main os 2 [prog; to_string (atoi arg)] fuel w = main os 2 [prog; arg] fuel w.
Proof.
  split; [apply atoi_range |]. split; [apply atoi_to_string |].
  unfold main. cbn [Z.gtb Z.eqb Z.compare Pos.compare Pos.compare_cont nth].
  rewrite atoi_to_string by apply atoi_range. reflexivity.
Qed.

Lemma port_argument_is_normalised_witness : atoi (to_string (-2147483648)) = -2147483648.
Proof.
  apply (port_argument_is_normalised friendly "./server" "80" 0 initial).
  unfold int_range. lia.
Defined.

(** X12: on the character stream of [std::cout], printing [a] without
    a line break and then [b] with one is printing [a ++ b] with one;
    printing the empty string without a line break changes nothing. *)
Theorem thread_safe_print_in_two_steps (a b : string) (w : world) :
  stream (snd (bind (thread_safe_print a false)
                 (fun _ => thread_safe_print b true) w))
  = stream (snd (thread_safe_print (a ++ b) true w)) /\
  stream (snd (thread_safe_print EmptyString false w)) = stream w.
Proof.
  unfold stream, bind, thread_safe_print, put; simpl. split.
  - rewrite <- app_assoc, !stream_app. simpl.
    rewrite !string_append_assoc.
    replace (a ++ EmptyString)%string with a
      by (clear; induction a as [| c a IH]; simpl; [| rewrite <- IH]; reflexivity).
    reflexivity.
  - rewrite stream_app. simpl.
    generalize (fold_right String.append EmptyString (console w)). intros s.
    induction s as [| c s IH]; simpl; [| rewrite IH]; reflexivity.
Qed.

End Extras.

(* ===================================================================== *)
(** ** Facts about the process with its threads                           *)
(* ===================================================================== *)

Module ConcFacts.
Import Inet Libc Proc Spec Hosts More InetFacts ProcFacts FrameFacts MoreFacts.
Import Conc.

(** *** Moves of the handler threads *)

Lemma ran_nil w w' :
  console (base w') = console (base w) -> alive w' = alive w ->
  calls (base w') = calls (base w) -> sock_name (base w') = sock_name (base w) ->
  accepts (base w') = accepts (base w) -> ran [] w w'.
Proof.
  intros Hc Ha Hs Hn Hacc. split; simpl; try assumption.
  - rewrite Hc. symmetry. apply app_nil_r.
  - rewrite Ha. reflexivity.
Qed.

Lemma ran_trans hs1 hs2 w1 w2 w3 :
  ran hs1 w1 w2 -> ran hs2 w2 w3 -> ran (hs1 ++ hs2) w1 w3.
Proof.
  intros [c1 a1 s1 n1 k1] [c2 a2 s2 n2 k2]. split.
  - rewrite c2, c1, map_app, app_assoc. reflexivity.
  - rewrite <- a1, <- a2, app_assoc. reflexivity.
  - congruence.
  - congruence.
  - congruence.
Qed.

Lemma step_ran p w : exists hs, ran hs w (step p w).
Proof.
  destruct p as [i |]; unfold step.
  - destruct (writer w) as [fd |] eqn:Hw.
    + exists []. apply ran_nil; reflexivity.
    + destruct (detached (base w) !! i) as [fd |] eqn:Hi.
      * exists []. split; simpl; try reflexivity.
        -- symmetry. apply app_nil_r.
        -- unfold alive. simpl. rewrite Hw. symmetry. apply delete_Permutation, Hi.
      * exists []. apply ran_nil; reflexivity.
  - destruct (writer w) as [fd |] eqn:Hw.
    + exists [fd]. split; simpl; try reflexivity.
      unfold alive. simpl. rewrite Hw. reflexivity.
    + exists []. apply ran_nil; reflexivity.
Qed.

Lemma run_steps_ran ps : forall w, exists hs, ran hs w (run_steps ps w).
Proof.
  induction ps as [| p ps IH]; intros w; simpl.
  - exists []. apply ran_nil; reflexivity.
  - destruct (step_ran p w) as (hs1 & H1). destruct (IH (step p w)) as (hs2 & H2).
    exists (hs1 ++ hs2). eapply ran_trans; eassumption.
Qed.

Lemma threaded_yield_spec sch w :
  exists hs w', yield sch w = (Normal tt, w') /\ ran hs w w'.
Proof.
  unfold yield.
  destruct (run_steps_ran (steps sch (ticks (base w))) (with_base (tick (base w)) w))
    as (hs & [c a s n k]).
  eexists hs, _. split; [reflexivity |]. split; assumption.
Qed.

(** *** [thread_safe_print] of the main thread *)

Lemma print_alone s b w :
  writer w = None ->
  thread_safe_print s b w
  = (Normal tt, with_base (put (s ++ (if b then endl else EmptyString)) (base w)) w).
Proof.
  intros Hw. unfold thread_safe_print, step. rewrite Hw. reflexivity.
Qed.

Lemma print_spec s w :
  exists hs w',
    thread_safe_print s true w = (Normal tt, w') /\
    console (base w') = console (base w) ++ map handling_line hs ++ [(s ++ endl)%string] /\
    hs ++ alive w' ≡ₚ alive w /\
    writer w' = None /\
    calls (base w') = calls (base w) /\
    sock_name (base w') = sock_name (base w) /\
    accepts (base w') = accepts (base w).
Proof.
  unfold thread_safe_print, step.
  destruct (writer w) as [fd |] eqn:Hw.
  - eexists [fd], _. split; [reflexivity |]. simpl.
    split; [rewrite <- app_assoc; reflexivity |].
    unfold alive. simpl. rewrite Hw. repeat split; reflexivity.
  - eexists [], _. split; [reflexivity |]. unfold lift. simpl.
    unfold alive. simpl. rewrite Hw. repeat split; reflexivity.
Qed.

(** *** The loop *)

Lemma threaded_accept_loop_spec os sch fd fuel : forall w,
  exists r hs w',
    do_while fuel (accept_body os sch fd) true w = (r, w') /\
    loop_outcome os sch fd fuel w r hs w'.
Proof.
  induction fuel as [| fuel IH]; intros w; unfold loop_outcome.
  - exists Running, [], w. split; [reflexivity |]. simpl. split; [reflexivity |].
    split; simpl; rewrite ?app_nil_r, ?Nat.add_0_r; reflexivity.
  - cbn [do_while loop_end].
    unfold bind at 1. unfold accept_body at 1. unfold bind at 1, lift at 1, sys_accept at 1.
    cbn iota beta.
    set (w1 := with_base (count_accept (log (Accept fd) (base w))) w).
    destruct (Z.eqb_spec (accept_ret os (accepts (base w))) (-1)) as [Hfail | Hok].
    + exists (Thrown (Server_Error ENCOUNTERED_ERROR_ACCEPTING_NEW_CONNECTION_c)), [], w1.
      split; [reflexivity |]. split; [reflexivity |].
      split; simpl; rewrite ?app_nil_r, ?Nat.add_1_r; reflexivity.
    + unfold bind at 1, when, ret. unfold bind at 1, spawn_detached at 1.
      change (Nat.pred (accepts (base w1))) with (accepts (base w)).
      destruct (thread_error sch (accepts (base w))) as [msg |] eqn:Hte.
      * exists (Thrown (system_error msg)), [], w1.
        split; [reflexivity |]. split; [reflexivity |].
        split; simpl; rewrite ?app_nil_r, ?Nat.add_1_r; reflexivity.
      * unfold lift at 1, Proc.spawn_detached at 1. cbn iota beta.
        set (w2 := with_base _ w1).
        destruct (threaded_yield_spec sch w2) as (hs1 & w3 & -> & [c1 a1 s1 n1 k1]).
        destruct (IH w3) as (r & hs2 & w' & -> & Hloop). unfold loop_outcome in Hloop.
        assert (Ha3 : accepts (base w3) = S (accepts (base w))) by (rewrite k1; reflexivity).
        rewrite Ha3 in Hloop.
        exists r, (hs1 ++ hs2), w'. split; [reflexivity |].
        assert (Hserved : forall k c, served os fd k c hs2 w3 w' ->
                                      served os fd (S k) (S c) (hs1 ++ hs2) w w').
        { intros k c [c2 a2 s2 k2 n2]. split.
          - rewrite c2, c1, map_app, app_assoc. reflexivity.
          - rewrite <- app_assoc, a2, app_assoc, a1, Ha3.
            unfold alive, w2, w1. simpl. destruct (writer w); simpl.
            + rewrite <- app_assoc. reflexivity.
            + rewrite <- app_assoc. reflexivity.
          - rewrite s2, s1. simpl. rewrite <- app_assoc. reflexivity.
          - rewrite k2, Ha3. lia.
          - rewrite n2, n1. reflexivity. }
        destruct (loop_end os sch (S (accepts (base w))) fuel) as [[k e] |]; simpl;
          destruct Hloop as [-> Hs]; (split; [reflexivity | apply Hserved, Hs]).
Qed.

(** *** [run_server] and [main] *)

Lemma bind_lift_normal {A B} (m : Proc.M A) (k : A -> M B) (w : world) a b :
  m (base w) = (Proc.Normal a, b) -> bind (lift m) k w = k a (with_base b w).
Proof. intros H. unfold bind, lift. rewrite H. reflexivity. Qed.

Lemma bind_lift_thrown {A B} (m : Proc.M A) (k : A -> M B) (w : world) msg b :
  m (base w) = (Proc.Thrown (Proc.Server_Error msg), b) ->
  bind (lift m) k w = (Thrown (Server_Error msg), with_base b w).
Proof. intros H. unfold bind, lift. rewrite H. reflexivity. Qed.

Ltac lifted := erewrite bind_lift_normal by reflexivity.

Lemma threaded_run_server_spec os sch port fuel w :
  accepts (base w) = 0%nat -> writer w = None ->
  exists r hs w',
    run_server os sch port SERVER_SOCKET_QUEUE_SIZE_c fuel w = (r, w') /\
    server_outcome os sch port fuel w r hs w'.
Proof.
  intros Hacc Hwr.
  unfold run_server, server_outcome, run_end, run_calls, announced, started, run_end,
    startup_failure, first_failure.
  lifted.
  destruct (Z.eqb_spec (socket_ret os) (-1)) as [H1 | H1].
  { eexists _, [], _. split; [reflexivity |]. simpl.
    rewrite !app_nil_r. repeat split; reflexivity. }
  unfold bind at 1, when at 1, ret at 1. lifted.
  destruct (Z.eqb_spec (setsockopt_ret os) (-1)) as [H2 | H2].
  { eexists _, [], _. split; [reflexivity |]. simpl.
    rewrite !app_nil_r, <- app_assoc. repeat split; reflexivity. }
  unfold bind at 1, when at 1, ret at 1.
  destruct (Z.eqb_spec (bind_ret os) (-1)) as [H3 | H3].
  { erewrite bind_lift_normal by (unfold sys_bind; rewrite H3; reflexivity).
    try rewrite H3. unfold bind at 1. cbn [when Z.eqb Pos.eqb throw].
    eexists _, [], _. split; [reflexivity |]. simpl.
    rewrite !app_nil_r, <- !app_assoc. repeat split; reflexivity. }
  erewrite bind_lift_normal
    by (unfold sys_bind; passes (bind_ret os); reflexivity).
  passes (bind_ret os). unfold bind at 1, when at 1, ret at 1.
  destruct (Z.eqb_spec (getsockname_ret os) (-1)) as [H4 | H4].
  { erewrite bind_lift_thrown by (apply get_port_number_fails; assumption).
    eexists _, [], _. split; [reflexivity |]. simpl.
    rewrite !app_nil_r, <- !app_assoc. repeat split; reflexivity. }
  erewrite bind_lift_normal
    by (apply get_port_number_bound; [reflexivity | assumption]).
  unfold bind at 1. rewrite print_alone by exact Hwr. lifted.
  match goal with |- context [do_while fuel ?b true ?w0] =>
    change b with (accept_body os sch (socket_ret os));
    destruct (threaded_accept_loop_spec os sch (socket_ret os) fuel w0)
      as (r & hs & w' & -> & Hloop)
  end.
  unfold loop_outcome in Hloop. simpl accepts in Hloop. rewrite Hacc in Hloop.
  exists r, hs, w'. split; [reflexivity |].
  cbn [first_accept_failure option_map].
  destruct (loop_end os sch 0 fuel) as [[k e] |]; simpl;
    destruct Hloop as [-> [c a s n m]]; simpl in c, a, s; rewrite Hacc in a;
    (repeat split;
     [ rewrite s, <- !app_assoc; reflexivity
     | rewrite c, <- !app_assoc; reflexivity
     | rewrite a; unfold alive; simpl; rewrite Hwr; reflexivity ]).
Qed.

Lemma threaded_main_usage os sch argc argv fuel w :
  argc > 2 -> writer w = None ->
  main os sch argc argv fuel w = (Normal (-1), with_base (put usage_line (base w)) w).
Proof.
  intros Hargc Hwr. unfold main.
  destruct (Z.gtb_spec argc 2) as [_ | ?]; [| lia].
  unfold bind. rewrite print_alone by exact Hwr. reflexivity.
Qed.

Lemma threaded_try_run (sch : scheduler) (m : M unit) (w : world) :
  bind (try_catch (bind m (fun _ => ret None))
          (fun err => bind (thread_safe_print (what err) true)
                        (fun _ => bind (late_yield sch) (fun _ => ret (Some (-1))))))
       (fun returned => match returned with
                        | Some code => ret code
                        | None => ret 0
                        end) w =
  match m w with
  | (Normal _, w') => (Normal 0, w')
  | (Thrown err, w') =>
      (Normal (-1), run_steps (late_steps sch) (snd (thread_safe_print (what err) true w')))
  | (Running, w') => (Running, w')
  end.
Proof.
  unfold bind at 1 2, try_catch.
  destruct (m w) as [[[] | err |] w']; reflexivity.
Qed.

Lemma threaded_main_serves os sch argc argv fuel w :
  argc <= 2 -> writer w = None ->
  main os sch argc argv fuel w =
  match run_server os sch (requested_port argc argv) SERVER_SOCKET_QUEUE_SIZE_c fuel
          (with_base (put (port_line argc argv) (base w)) w) with
  | (Normal _, w') => (Normal 0, w')
  | (Thrown err, w') =>
      (Normal (-1), run_steps (late_steps sch) (snd (thread_safe_print (what err) true w')))
  | (Running, w') => (Running, w')
  end.
Proof.
  intros Hargc Hwr. unfold main, requested_port, port_line.
  destruct (Z.gtb_spec argc 2) as [? | _]; [lia |].
  unfold bind at 1.
  destruct (argc =? 2);
    unfold bind at 1; rewrite print_alone by exact Hwr; unfold ret at 1;
    exact (threaded_try_run _ _ _).
Qed.

Lemma threaded_main_spec os sch argc argv fuel w :
  argc <= 2 -> accepts (base w) = 0%nat -> writer w = None ->
  exists r before after w',
    main os sch argc argv fuel w = (r, w') /\
    main_outcome os sch argc argv fuel w r before after w'.
Proof.
  intros Hargc Hacc Hwr. rewrite threaded_main_serves by assumption.
  destruct (threaded_run_server_spec os sch (requested_port argc argv) fuel
              (with_base (put (port_line argc argv) (base w)) w) Hacc Hwr)
    as (r & hs & w1 & -> & Hr & Hcalls & Hcons & Halive).
  unfold main_outcome. simpl in Hcalls, Hcons.
  assert (Hal : alive (with_base (put (port_line argc argv) (base w)) w) = alive w)
    by reflexivity.
  rewrite Hal in Halive.
  destruct (run_end os sch fuel) as [[k e] |]; subst r; cbn [option_map snd].
  - destruct (print_spec (what e) w1) as (hp & w2 & -> & Hc2 & Ha2 & _ & Hs2 & _).
    cbn [snd].
    destruct (run_steps_ran (late_steps sch) w2) as (hl & [Hc3 Ha3 Hs3 _ _]).
    exists (Normal (-1)), (hs ++ hp), hl, (run_steps (late_steps sch) w2).
    split; [reflexivity |]. split; [reflexivity |].
    split; [rewrite Hs3, Hs2; exact Hcalls |].
    split; [| split; [discriminate |]].
    + rewrite Hc3, Hc2, Hcons. unfold rest_of_console.
      rewrite map_app, <- !app_assoc. reflexivity.
    + rewrite <- Halive, <- Ha2, <- Ha3.
      rewrite <- !app_assoc. reflexivity.
  - exists Running, hs, [], w1. split; [reflexivity |]. split; [reflexivity |].
    split; [exact Hcalls |]. split; [| split; [reflexivity | exact Halive]].
    rewrite Hcons. unfold rest_of_console. rewrite <- !app_assoc, app_nil_r. reflexivity.
Qed.

(** *** How runs end *)

Lemma startup_failure_failed os f : startup_failure os = Some f -> failed os f.
Proof.
  unfold startup_failure, first_failure.
  destruct (Z.eqb_spec (socket_ret os) (-1)); [intros [= <-]; assumption |].
  destruct (Z.eqb_spec (setsockopt_ret os) (-1)); [intros [= <-]; assumption |].
  destruct (Z.eqb_spec (bind_ret os) (-1)); [intros [= <-]; assumption |].
  destruct (Z.eqb_spec (getsockname_ret os) (-1)); [intros [= <-]; assumption |].
  discriminate.
Qed.

Lemma loop_end_sound os sch n : forall from k e,
  loop_end os sch from n = Some (k, e) ->
  (k < n)%nat /\
  ((accept_ret os (from + k) = -1 /\
    e = Server_Error ENCOUNTERED_ERROR_ACCEPTING_NEW_CONNECTION_c) \/
   (exists msg, accept_ret os (from + k) <> -1 /\
                thread_error sch (from + k) = Some msg /\ e = system_error msg)).
Proof.
  induction n as [| n IH]; intros from k e; simpl; [discriminate |].
  destruct (Z.eqb_spec (accept_ret os from) (-1)) as [Hf | Hok].
  - intros [= <- <-]. rewrite Nat.add_0_r. split; [lia |]. left.
    split; [assumption | reflexivity].
  - destruct (thread_error sch from) as [msg |] eqn:Hte.
    + intros [= <- <-]. rewrite Nat.add_0_r. split; [lia |]. right. exists msg.
      repeat split; assumption.
    + destruct (loop_end os sch (S from) n) as [[j e'] |] eqn:Hj; [| discriminate].
      intros [= <- <-]. destruct (IH _ _ _ Hj) as [Hlt Hcase].
      replace (from + S j)%nat with (S from + j)%nat by lia.
      split; [lia | exact Hcase].
Qed.

Lemma loop_end_none os sch n : forall from,
  (forall k, accept_ret os k <> -1) -> threads_start sch ->
  loop_end os sch from n = None.
Proof.
  intros from Hacc Hth. revert from.
  induction n as [| n IH]; intros from; simpl; [reflexivity |].
  destruct (Z.eqb_spec (accept_ret os from) (-1)) as [Hf | _];
    [exfalso; exact (Hacc from Hf) |].
  rewrite Hth, IH. reflexivity.
Qed.

Lemma run_end_none os sch fuel :
  no_failure os -> threads_start sch ->
  startup_failure os = None /\ run_end os sch fuel = None.
Proof.
  intros Hok Hth. pose proof (no_failure_first_failure os 0 Hok) as Hs.
  unfold run_end, startup_failure. rewrite Hs. split; [reflexivity |].
  destruct Hok as (_ & _ & _ & _ & Hacc). apply loop_end_none; assumption.
Qed.

(** *** What never happens *)

Lemma threaded_bind_never_normal {A B} (m : M A) (k : A -> M B) (w : world) (b : B) :
  (forall a w1, fst (k a w1) <> Normal b) -> fst (bind m k w) <> Normal b.
Proof.
  intros Hk. unfold bind.
  destruct (m w) as [[a | e |] w1]; [apply Hk | discriminate | discriminate].
Qed.

Lemma threaded_do_while_true_never_normal (body : M unit) (fuel : nat) :
  forall w u, fst (do_while fuel body true w) <> Normal u.
Proof.
  induction fuel as [| fuel IH]; intros w u; simpl.
  - discriminate.
  - apply threaded_bind_never_normal. intros _ w1. apply IH.
Qed.

Lemma threaded_run_server_never_normal os sch port q fuel w u :
  fst (run_server os sch port q fuel w) <> Normal u.
Proof.
  unfold run_server.
  repeat (apply threaded_bind_never_normal; intros ? ?).
  apply threaded_do_while_true_never_normal.
Qed.

Lemma main_never_zero os sch argc argv fuel w :
  fst (main os sch argc argv fuel w) <> Normal 0.
Proof.
  unfold main. destruct (argc >? 2); [discriminate |].
  unfold bind at 1.
  destruct (argc =? 2);
    (unfold bind at 1; unfold thread_safe_print at 1, lift at 1, Proc.thread_safe_print at 1;
     cbn iota beta; unfold ret at 1; rewrite threaded_try_run;
     match goal with
     | |- context [run_server ?o ?s ?p ?q ?f ?w0] =>
         pose proof (threaded_run_server_never_normal o s p q f w0) as Hn;
         destruct (run_server o s p q f w0) as [[[] | e |] w']
     end; simpl; [exfalso; exact (Hn tt eq_refl) | discriminate | discriminate]).
Qed.

(** *** Runs in which every thread can be started *)

Lemma loop_end_threads_start os sch n : forall from,
  threads_start sch ->
  loop_end os sch from n
  = option_map (fun k => (k, Server_Error ENCOUNTERED_ERROR_ACCEPTING_NEW_CONNECTION_c))
      (first_accept_failure os from n).
Proof.
  intros from Hth. revert from.
  induction n as [| n IH]; intros from; simpl; [reflexivity |].
  destruct (accept_ret os from =? -1); [reflexivity |].
  rewrite Hth, IH. destruct (first_accept_failure os (S from) n); reflexivity.
Qed.

(** With every thread started, the console of [main] holds the lines of
    [Proc], those of the handlers in some order around the message. *)
Lemma threads_start_console os sch argc argv fuel before after (rest : list Z) :
  threads_start sch ->
  (option_map snd (run_end os sch fuel) = None -> after = []) ->
  before ++ after ++ rest ≡ₚ started os sch fuel ->
  port_line argc argv
    :: announced os (requested_port argc argv)
    ++ rest_of_console (option_map snd (run_end os sch fuel)) before after
  ≡ₚ port_line argc argv
       :: served_lines os (requested_port argc argv) (first_failure os fuel) (before ++ after)
       ++ last_lines (first_failure os fuel).
Proof.
  intros Hth Hafter Hperm.
  assert (Hearly : forall f,
            startup_failure os = Some f -> first_failure os fuel = Some f ->
            served_lines os (requested_port argc argv) (Some f) (before ++ after) = [] ->
            port_line argc argv
              :: announced os (requested_port argc argv)
              ++ rest_of_console (option_map snd (run_end os sch fuel)) before after
            ≡ₚ port_line argc argv
                 :: served_lines os (requested_port argc argv) (Some f) (before ++ after)
                 ++ last_lines (Some f)).
  { intros f Hs Hf Hnone. unfold started, announced, run_end in *. rewrite Hs in *.
    cbn [option_map snd] in *. rewrite Hnone.
    apply Permutation_nil_r in Hperm.
    apply app_eq_nil in Hperm. destruct Hperm as [-> Hperm].
    apply app_eq_nil in Hperm. destruct Hperm as [-> _].
    reflexivity. }
  unfold first_failure in *.
  destruct (socket_ret os =? -1) eqn:H1;
    [apply Hearly; unfold startup_failure, first_failure; rewrite ?H1; reflexivity |].
  destruct (setsockopt_ret os =? -1) eqn:H2;
    [apply Hearly; unfold startup_failure, first_failure; rewrite ?H1, ?H2; reflexivity |].
  destruct (bind_ret os =? -1) eqn:H3;
    [apply Hearly; unfold startup_failure, first_failure; rewrite ?H1, ?H2, ?H3;
     reflexivity |].
  destruct (getsockname_ret os =? -1) eqn:H4;
    [apply Hearly; unfold startup_failure, first_failure; rewrite ?H1, ?H2, ?H3, ?H4;
     reflexivity |].
  clear Hearly.
  assert (Hs : startup_failure os = None)
    by (unfold startup_failure, first_failure; rewrite H1, H2, H3, H4; reflexivity).
  unfold announced, run_end in *. rewrite Hs in *.
  rewrite loop_end_threads_start in * by exact Hth.
  destruct (first_accept_failure os 0 fuel) as [k |];
    cbn [option_map snd served_lines last_lines rest_of_console what app] in *.
  - apply Permutation_skip, Permutation_skip.
    rewrite map_app, <- app_assoc. apply Permutation_app_head.
    exact (Permutation_cons_append (map handling_line after) _).
  - rewrite (Hafter eq_refl). unfold rest_of_console. rewrite !app_nil_r. reflexivity.
Qed.



(** *** [Proc] is [Conc] under the atomic scheduler *)

Lemma agrees_lift {A} (m : Proc.M A) : agrees (lift m) m.
Proof. intros w _. reflexivity. Qed.

Lemma agrees_ret {A} (a : A) : agrees (ret a) (Proc.ret a).
Proof. intros [b wr] _. reflexivity. Qed.

Lemma agrees_throw {A} msg :
  agrees (@throw A (Server_Error msg)) (Proc.throw (Proc.Server_Error msg)).
Proof. intros [b wr] _. reflexivity. Qed.

Lemma agrees_still_running {A} : agrees (@still_running A) Proc.still_running.
Proof. intros [b wr] _. reflexivity. Qed.

Lemma agrees_bind {A B} (mc : M A) mp (kc : A -> M B) kp :
  agrees mc mp -> (forall a, agrees (kc a) (kp a)) -> agrees (bind mc kc) (Proc.bind mp kp).
Proof.
  intros Hm Hk w Hw. unfold bind, Proc.bind. rewrite (Hm w Hw).
  unfold lift.
  destruct (mp (base w)) as [[a | [msg] |] b]; try reflexivity.
  rewrite (Hk a (with_base b w) Hw). unfold lift. reflexivity.
Qed.

Lemma agrees_when b mc mp : agrees mc mp -> agrees (when b mc) (Proc.when b mp).
Proof. intros H. destruct b; [exact H | apply agrees_ret]. Qed.

Lemma agrees_print s b : agrees (thread_safe_print s b) (Proc.thread_safe_print s b).
Proof. intros w Hw. rewrite print_alone by exact Hw. reflexivity. Qed.

Lemma agrees_spawn os fd : agrees (spawn_detached (atomic os) fd) (Proc.spawn_detached fd).
Proof. intros w _. reflexivity. Qed.

Lemma run_steps_atomic os picks : forall w,
  writer w = None ->
  run_steps (flat_map (fun i => [Start i; Finish]) picks) w
  = with_base (snd (Proc.run_threads os picks (base w))) w /\
  fst (Proc.run_threads os picks (base w)) = Proc.Normal tt.
Proof.
  induction picks as [| i picks IH]; intros [b wr] Hw; simpl in Hw; subst wr.
  - split; reflexivity.
  - cbn [flat_map app run_steps Proc.run_threads]. unfold Proc.bind, run_thread.
    unfold step at 2. cbn [writer base].
    destruct (detached b !! i) as [fd |] eqn:Hi.
    + rewrite handle_connection_run. unfold step at 1. cbn [writer base].
      match goal with
      | |- context [run_steps _ ?w0] => destruct (IH w0 eq_refl) as [-> Hn]
      end.
      cbn [base] in Hn |- *. split; [reflexivity | exact Hn].
    + unfold step at 1. cbn [writer base].
      destruct (IH {| base := b; writer := None |} eq_refl) as [-> Hn].
      split; [reflexivity | exact Hn].
Qed.

Lemma agrees_yield os : agrees (yield (atomic os)) (Proc.yield os).
Proof.
  intros w Hw. unfold yield, lift, Proc.yield. cbn [steps atomic].
  destruct (run_steps_atomic os (schedule os (ticks (base w)))
              (with_base (tick (base w)) w) Hw) as [-> Hn].
  cbn [base with_base] in Hn |- *.
  destruct (run_threads os (schedule os (ticks (base w))) (tick (base w))) as [r b].
  simpl in Hn. subst r. reflexivity.
Qed.

Lemma agrees_do_while fuel mc mp cond :
  agrees mc mp -> agrees (do_while fuel mc cond) (Proc.do_while fuel mp cond).
Proof.
  intros H. induction fuel as [| fuel IH]; simpl.
  - apply agrees_still_running.
  - apply agrees_bind; [exact H |]. intros _. destruct cond; [exact IH | apply agrees_ret].
Qed.

Create HintDb agrees.
#[local] Hint Resolve agrees_lift agrees_ret agrees_throw agrees_when agrees_print
  agrees_spawn agrees_yield agrees_do_while : agrees.

Lemma agrees_run_server os port q fuel :
  agrees (run_server os (atomic os) port q fuel) (Proc.run_server os port q fuel).
Proof.
  unfold run_server, Proc.run_server.
  repeat (apply agrees_bind; [auto with agrees | intros ?]).
  apply agrees_do_while.
  repeat (apply agrees_bind; [auto with agrees | intros ?]).
  apply agrees_yield.
Qed.

(** The program of [Proc] is the program with threads under the atomic
    scheduler. *)
Lemma atomic_reading os argc argv fuel :
  agrees (main os (atomic os) argc argv fuel) (Proc.main os argc argv fuel).
Proof.
  unfold main, Proc.main. destruct (argc >? 2).
  - apply agrees_bind; [auto with agrees | intros ?; apply agrees_ret].
  - apply agrees_bind.
    { destruct (argc =? 2);
        (apply agrees_bind; [auto with agrees | intros ?; apply agrees_ret]). }
    intros port. apply agrees_bind.
    + intros w Hw. unfold try_catch, Proc.try_catch.
      pose proof (agrees_bind _ _ _ _ (agrees_run_server os port SERVER_SOCKET_QUEUE_SIZE_c fuel)
                    (fun _ : unit => agrees_ret (@None Z)) w Hw) as Hbody.
      rewrite Hbody. unfold lift.
      destruct (Proc.bind (Proc.run_server os port SERVER_SOCKET_QUEUE_SIZE_c fuel)
                  (fun _ => Proc.ret None) (base w)) as [[a | [msg] |] b]; try reflexivity.
      unfold bind, late_yield. rewrite print_alone by exact Hw. reflexivity.
    + intros [code |]; apply agrees_ret.
Qed.

End ConcFacts.

(* ===================================================================== *)
(** ** The claims that depend on the threads                              *)
(* ===================================================================== *)

Module ConcClaims.
Import Inet Libc Proc Spec Hosts More InetFacts ProcFacts FrameFacts MoreFacts.
Import Conc ConcFacts.

(** C5, as the code has it: when [main], called with at most one
    argument, returns or is observed still running, the complete writes
    on the console are, in this order: the port line (the line with the
    number read from the argument, or the line for no argument); if the
    start-up got through the port query, the line with the resolved
    port; the lines of the handlers [before] that completed their write
    before the run ended; and, when the run ended by an exception (a
    [Server_Error], or the [std::system_error] of a thread that could
    not be started), its text and then the lines of the handlers [after]
    that completed their write before [main] returned -1. Every
    connection for which a thread was started has its line, once, or
    its handler is still [alive]: it has not completed its write, and
    at most one such handler, the [writer], has inserted its text. *)
Theorem console_output_in_order
    (os : OS) (sch : scheduler) (argc : Z) (argv : list string) (fuel : nat) :
  argc <= 2 ->
  let e := option_map snd (run_end os sch fuel) in
  exists r before after w',
    main os sch argc argv fuel initial = (r, w') /\
    r = match e with Some _ => Normal (-1) | None => Running end /\
    console (base w') =
      port_line argc argv
        :: announced os (requested_port argc argv) ++ rest_of_console e before after /\
    (e = None -> after = []) /\
    before ++ after ++ alive w' ≡ₚ started os sch fuel.
Proof.
  intros Hargc e.
  destruct (threaded_main_spec os sch argc argv fuel initial Hargc eq_refl eq_refl)
    as (r & before & after & w' & Hmain & Hr & _ & Hcons & Hafter & Halive).
  cbn [console base initial Proc.initial alive writer detached app] in Hcons, Halive.
  exists r, before, after, w'. repeat split; assumption.
Qed.

Lemma console_output_in_order_witness :
  exists r before after w',
    main hasty late 2 ["./server"; "8080"]%string 3 initial = (r, w') /\
    r = Normal (-1) /\
    console (base w') =
      selected_line 8080
        :: [listening_line 8080]
        ++ rest_of_console
             (Some (Server_Error ENCOUNTERED_ERROR_ACCEPTING_NEW_CONNECTION_c))
             before after /\
    (Some (Server_Error ENCOUNTERED_ERROR_ACCEPTING_NEW_CONNECTION_c) = None -> after = []) /\
    before ++ after ++ alive w' ≡ₚ [4].
Proof.
  apply (console_output_in_order hasty late 2 ["./server"; "8080"]%string 3).
  lia.
Defined.

(** C5 as stated fails in two ways. On a host that accepts one
    connection and fails the next [accept], the process can return with
    the handler of the accepted connection never scheduled: no line for
    it; and the handler can be scheduled after the [catch] clause has
    printed: its line follows the error message. *)
Lemma handler_line_missing_or_late :
  (exists w',
     main hasty idle 2 ["./server"; "8080"]%string 2 initial = (Normal (-1), w') /\
     accept_ret hasty 0 = 4 /\
     console (base w') =
       [selected_line 8080; listening_line 8080; error_line (AcceptError 1)] /\
     alive w' = [4] /\
     ~ one_line_per_connection hasty (base w')) /\
  (exists w',
     main hasty late 2 ["./server"; "8080"]%string 2 initial = (Normal (-1), w') /\
     console (base w') =
       [selected_line 8080; listening_line 8080; error_line (AcceptError 1);
        handling_line 4]).
Proof.
  split.
  - exists (snd (main hasty idle 2 ["./server"; "8080"]%string 2 initial)).
    assert (Hacc : accepts (base (snd (main hasty idle 2 ["./server"; "8080"]%string 2
                                         initial))) = 2%nat)
      by (vm_compute; reflexivity).
    assert (Hcons : console (base (snd (main hasty idle 2 ["./server"; "8080"]%string 2
                                          initial)))
                    = [selected_line 8080; listening_line 8080;
                       error_line (AcceptError 1)])
      by (vm_compute; reflexivity).
    split; [vm_compute; reflexivity |]. split; [reflexivity |].
    split; [exact Hcons |]. split; [vm_compute; reflexivity |].
    intros H. specialize (H 0%nat). rewrite Hacc, Hcons in H.
    assert (Hin : In (handling_line (accept_ret hasty 0))
                    [selected_line 8080; listening_line 8080; error_line (AcceptError 1)])
      by (apply H; [lia | discriminate]).
    vm_compute in Hin.
    destruct Hin as [Heq | [Heq | [Heq | []]]]; discriminate Heq.
  - eexists. split; vm_compute; reflexivity.
Qed.

(** C7, as the code has it: [run_server] never returns normally and
    [main] never returns 0; when no call fails and every thread can be
    started, the loop is still running after any number [fuel] of
    iterations, having called [accept] [fuel] times and started a
    handler for each connection, of which those that completed their
    write have their line on the console after the line with the port;
    and an exception that leaves [run_server] is the [Server_Error] of
    a call that returned -1, or the [std::system_error] of a thread
    that could not be started for an accepted connection. *)
Theorem run_server_never_returns
    (os : OS) (sch : scheduler) (port : Z) (fuel : nat) :
  (forall q w u, fst (run_server os sch port q fuel w) <> Normal u) /\
  (forall argc argv w, fst (main os sch argc argv fuel w) <> Normal 0) /\
  (no_failure os -> threads_start sch ->
   exists hs w',
     run_server os sch port SERVER_SOCKET_QUEUE_SIZE_c fuel initial = (Running, w') /\
     calls (base w') = startup_calls os port ++ repeat (Accept (socket_ret os)) fuel /\
     console (base w') = listening_line (resolved_port os port) :: map handling_line hs /\
     hs ++ alive w' ≡ₚ accepted os fuel) /\
  (forall e w',
     run_server os sch port SERVER_SOCKET_QUEUE_SIZE_c fuel initial = (Thrown e, w') ->
     (exists f, failed os f /\ e = Server_Error (message f)) \/
     (exists k msg, accept_ret os k <> -1 /\ thread_error sch k = Some msg /\
                    e = system_error msg)).
Proof.
  split; [intros; apply threaded_run_server_never_normal |].
  split; [intros; apply main_never_zero |].
  split.
  - intros Hok Hth.
    destruct (threaded_run_server_spec os sch port fuel initial eq_refl eq_refl)
      as (r & hs & w' & Hrun & Hr & Hcalls & Hcons & Halive).
    destruct (run_end_none os sch fuel Hok Hth) as [Hs He].
    unfold run_calls, announced, started in *. rewrite He in *. rewrite Hs in *.
    assert (Hl : loop_end os sch 0 fuel = None)
      by (unfold run_end in He; rewrite Hs in He; exact He).
    rewrite Hl in Hcalls. subst r.
    exists hs, w'. repeat split; assumption.
  - intros e w' Hrun.
    destruct (threaded_run_server_spec os sch port fuel initial eq_refl eq_refl)
      as (r & hs & w1 & Hrun' & Hr & _).
    rewrite Hrun in Hrun'. injection Hrun' as <- <-.
    unfold run_end in Hr.
    destruct (startup_failure os) as [f |] eqn:Hs.
    + injection Hr as ->. left. exists f. split; [| reflexivity].
      apply startup_failure_failed, Hs.
    + destruct (loop_end os sch 0 fuel) as [[k e'] |] eqn:Hl; [| discriminate Hr].
      injection Hr as ->.
      destruct (loop_end_sound _ _ _ _ _ _ Hl) as [_ [[Hf ->] | (msg & Hok & Hte & ->)]].
      * left. exists (AcceptError k). split; [exact Hf | reflexivity].
      * right. exists k, msg. repeat split; assumption.
Qed.

Lemma run_server_never_returns_witness :
  exists hs w',
    run_server friendly prompt 8080 SERVER_SOCKET_QUEUE_SIZE_c 3 initial = (Running, w') /\
    calls (base w') = startup_calls friendly 8080 ++ repeat (Accept (socket_ret friendly)) 3 /\
    console (base w') = listening_line (resolved_port friendly 8080) :: map handling_line hs /\
    hs ++ alive w' ≡ₚ accepted friendly 3.
Proof.
  apply (run_server_never_returns friendly prompt 8080 3).
  - repeat split; simpl; try discriminate. intros k. lia.
  - intros k. reflexivity.
Defined.

(** C7 as stated fails: on a host on which no call fails and no thread
    can be started, the loop ends in its first iteration, and what
    leaves [run_server] is a [std::system_error], not a [Server_Error];
    [main] prints its text and returns -1. *)
Lemma thread_failure_leaves_run_server :
  no_failure friendly /\
  fst (run_server friendly crowded 8080 SERVER_SOCKET_QUEUE_SIZE_c 5 initial)
  = Thrown (system_error "Resource temporarily unavailable") /\
  ~ (exists msg,
       fst (run_server friendly crowded 8080 SERVER_SOCKET_QUEUE_SIZE_c 5 initial)
       = Thrown (Server_Error msg)) /\
  fst (run_server friendly crowded 8080 SERVER_SOCKET_QUEUE_SIZE_c 5 initial) <> Running /\
  (exists w',
     main friendly crowded 2 ["./server"; "8080"]%string 5 initial = (Normal (-1), w') /\
     console (base w') =
       [selected_line 8080; listening_line 8080;
        ("Resource temporarily unavailable" ++ endl)%string]).
Proof.
  assert (Hrun : fst (run_server friendly crowded 8080 SERVER_SOCKET_QUEUE_SIZE_c 5 initial)
                 = Thrown (system_error "Resource temporarily unavailable"))
    by (vm_compute; reflexivity).
  split; [repeat split; simpl; try discriminate; intros k; lia |].
  split; [exact Hrun |]. rewrite Hrun.
  split; [intros (msg & H); discriminate H |].
  split; [discriminate |].
  eexists. split; vm_compute; reflexivity.
Qed.

End ConcClaims.

(* ===================================================================== *)
(** ** Further properties of the process with its threads                 *)
(* ===================================================================== *)

Module ConcExtras.
Import Inet Libc Proc Spec Hosts More InetFacts ProcFacts FrameFacts MoreFacts.
Import Conc ConcFacts.

(** X3, as the code has it: whenever [main] returns, its exit code is
    -1 and the console holds a message that tells why: the usage
    message, as the only line, when there is more than one argument;
    else the text of the exception that ended [run_server]. After the
    message the console holds nothing but lines of handlers of
    connections for which a thread was started. *)
Theorem main_exit_is_announced
    (os : OS) (sch : scheduler) (argc : Z) (argv : list string) (fuel : nat)
    (code : Z) (w' : world) :
  main os sch argc argv fuel initial = (Normal code, w') ->
  code = -1 /\
  exists pre text after,
    console (base w') = pre ++ (text ++ endl)%string :: map handling_line after /\
    ((argc > 2 /\ text = USAGE_MESSAGE_c /\ pre = [] /\ after = []) \/
     (argc <= 2 /\
      (exists k e, run_end os sch fuel = Some (k, e) /\ text = what e) /\
      forall connection_fd, In connection_fd after -> In connection_fd (started os sch fuel))).
Proof.
  intros Hmain. destruct (Z_le_gt_dec argc 2) as [Hle | Hgt].
  - destruct (threaded_main_spec os sch argc argv fuel initial Hle eq_refl eq_refl)
      as (r & before & after & w1 & Hm & Hr & _ & Hcons & _ & Hperm).
    rewrite Hmain in Hm. injection Hm as <- <-.
    destruct (run_end os sch fuel) as [[k e] |] eqn:He; cbn [option_map snd] in *;
      [| discriminate Hr].
    injection Hr as ->. split; [reflexivity |].
    exists (port_line argc argv
              :: announced os (requested_port argc argv) ++ map handling_line before),
      (what e), after.
    split.
    { rewrite Hcons. unfold rest_of_console. cbn [console base initial Proc.initial app].
      rewrite <- app_assoc. reflexivity. }
    right. split; [exact Hle |]. split; [exists k, e; split; reflexivity |].
    intros fd Hin. cbn [alive writer initial base detached Proc.initial app] in Hperm.
    apply list_elem_of_In. rewrite <- Hperm.
    apply list_elem_of_In. apply in_or_app. right. apply in_or_app. left. exact Hin.
  - rewrite threaded_main_usage in Hmain by (try reflexivity; assumption).
    injection Hmain as <- <-. split; [reflexivity |].
    exists [], USAGE_MESSAGE_c, []. split; [reflexivity |]. left. repeat split. exact Hgt.
Qed.

Lemma main_exit_is_announced_witness :
  -1 = -1 /\
  exists pre text after,
    console (base (snd (main hasty late 2 ["./server"; "8080"]%string 3 initial)))
    = pre ++ (text ++ endl)%string :: map handling_line after /\
    ((2 > 2 /\ text = USAGE_MESSAGE_c /\ pre = [] /\ after = []) \/
     (2 <= 2 /\
      (exists k e, run_end hasty late 3 = Some (k, e) /\ text = what e) /\
      forall connection_fd, In connection_fd after -> In connection_fd (started hasty late 3))).
Proof.
  apply (main_exit_is_announced hasty late 2 ["./server"; "8080"]%string 3 (-1)).
  vm_compute. reflexivity.
Defined.



(** X11, as the code has it: when [main] is called with at most one
    argument, every thread can be started and the connections accepted
    have pairwise distinct descriptors, no line appears twice on the
    console by the time [main] returns or is observed, however the
    handler threads are scheduled: no connection is announced twice and
    no other line is repeated. *)
Theorem no_line_is_printed_twice
    (os : OS) (sch : scheduler) (argc : Z) (argv : list string) (fuel : nat) :
  argc <= 2 ->
  threads_start sch ->
  NoDup (started os sch fuel) ->
  NoDup (console (base (snd (main os sch argc argv fuel initial)))).
Proof.
  intros Hle Hth Hnd.
  destruct (threaded_main_spec os sch argc argv fuel initial Hle eq_refl eq_refl)
    as (r & before & after & w1 & -> & _ & _ & Hcons & Hafter & Hperm).
  cbn [snd]. cbn [console base initial Proc.initial alive writer detached app] in Hcons, Hperm.
  rewrite Hcons.
  rewrite (threads_start_console os sch argc argv fuel before after (alive w1) Hth Hafter Hperm).
  apply NoDup_cons_2.
  { intros Hin. apply list_elem_of_In in Hin. exact (port_line_not_served _ _ _ _ _ _ Hin). }
  apply served_lines_nodup.
  rewrite <- Hperm, app_assoc in Hnd. apply NoDup_app in Hnd. destruct Hnd as [Hhs _].
  exact Hhs.
Qed.

Lemma no_line_is_printed_twice_witness :
  NoDup (console (base (snd (main hasty late 2 ["./server"; "8080"]%string 2 initial)))).
Proof.
  apply (no_line_is_printed_twice hasty late 2 ["./server"; "8080"]%string 2).
  - lia.
  - intros k. reflexivity.
  - apply (bool_decide_unpack _). vm_compute. exact I.
Defined.

End ConcExtras.
